(** * useStreamingResponse: a model of the streaming hook and its properties

    The development embeds [src/hooks/useStreamingResponse.ts].

    - [JS]: the JavaScript values and the string built-ins the hook calls
      ([trim], [startsWith], [slice], [split]).
    - [Runtime]: what the hook takes from its platform, as an interface: the
      streaming [TextDecoder], [JSON.parse] and [JSON.stringify].
    - The hook itself: its React state, the observer callbacks as a trace of
      effects, and every invocation of [startStreaming] as a resumable call
      that is suspended at [await fetch] or at [await reader.read()].
    - [Browser]: an instance of [Runtime] for 7-bit texts, used to run the
      hook on concrete streams. *)

From stdpp Require Import gmap strings list pretty.
From Stdlib Require Import Ascii String.

Set Warnings "-register-all".

(** ** JavaScript values and string built-ins *)

Module JS.

(** A JavaScript string is modelled by a Rocq [string]: one [ascii] per code
    unit, for code units below 256. *)

(** The values [JSON.parse] returns, and [undefined], which a property
    access on a missing key evaluates to. A number keeps its literal; an
    object keeps its members in the order of the text, duplicates included
    (the last one wins, see [get]). *)
Inductive JSValue : Type :=
  | JUndefined
  | JNull
  | JBool (b : bool)
  | JNumber (literal : string)
  | JString (s : string)
  | JArray (items : list JSValue)
  | JObject (members : list (string * JSValue)).

(** The errors the code inspects: [err instanceof Error], [err.name] and
    [err.message]. *)
Record JSError : Type := mkError {
  instanceof_Error : bool;
  name : string;
  message : string;
}.

(** [new Error(msg)] *)
Definition new_Error (msg : string) : JSError :=
  {| instanceof_Error := true; name := "Error"; message := msg |}.

(** The exception an aborted [fetch] or an aborted body read rejects with. *)
Definition AbortError : JSError :=
  {| instanceof_Error := true; name := "AbortError";
     message := "The operation was aborted." |}.

(** [err instanceof Error && err.name === "AbortError"] *)
Definition is_AbortError (err : JSError) : bool :=
  instanceof_Error err && bool_decide (name err = "AbortError").

(** White space and line terminators that [String.prototype.trim] strips,
    among the code units below 256: TAB, LF, VT, FF, CR, SP, NBSP. *)
Definition is_white_space (c : ascii) : bool :=
  match nat_of_ascii c with
  | 9 | 10 | 11 | 12 | 13 | 32 | 160 => true
  | _ => false
  end.

Fixpoint trimStart (s : string) : string :=
  match s with
  | EmptyString => EmptyString
  | String c s' => if is_white_space c then trimStart s' else s
  end.

Fixpoint trimEnd (s : string) : string :=
  match s with
  | EmptyString => EmptyString
  | String c s' =>
      match trimEnd s' with
      | EmptyString => if is_white_space c then EmptyString else String c EmptyString
      | t => String c t
      end
  end.

(** [s.trim()] *)
Definition trim (s : string) : string := trimEnd (trimStart s).

(** [s.startsWith(p)] *)
Fixpoint startsWith (s p : string) : bool :=
  match p, s with
  | EmptyString, _ => true
  | String _ _, EmptyString => false
  | String a p', String b s' => bool_decide (a = b) && startsWith s' p'
  end.

(** [s.slice(n)] for [n >= 0] *)
Fixpoint slice (s : string) (n : nat) : string :=
  match n, s with
  | O, _ => s
  | S _, EmptyString => EmptyString
  | S n', String _ s' => slice s' n'
  end.

Definition LF : ascii := ascii_of_nat 10.

(** [s.split("\n")]: the pieces between line feeds; never the empty list. *)
Fixpoint split_lines (s : string) : list string :=
  match s with
  | EmptyString => [EmptyString]
  | String c s' =>
      if bool_decide (c = LF) then EmptyString :: split_lines s'
      else match split_lines s' with
           | l :: ls => String c l :: ls
           | [] => [String c EmptyString]
           end
  end.

(** Truthiness, as [if (v)] and [v && ...] test it. A number is falsy when
    it is zero. The number of a literal is the double nearest to what the
    literal denotes: it is zero when the literal denotes zero, and also
    when it denotes at most 2^-1075 in magnitude, half the smallest double,
    which rounds to zero. *)
Definition digit_value (c : ascii) : option Z :=
  let n := nat_of_ascii c in
  if (48 <=? n) && (n <=? 57) then Some (Z.of_nat (n - 48)) else None.

(** The digits at the head of [s]: the number they make after the digits
    that made [acc], how many they are, and the rest of [s]. *)
Fixpoint read_digits (s : string) (acc count : Z) : Z * Z * string :=
  match s with
  | EmptyString => (acc, count, s)
  | String c s' =>
      match digit_value c with
      | Some d => read_digits s' (10 * acc + d)%Z (count + 1)%Z
      | None => (acc, count, s)
      end
  end.

(** The exponent of a literal, from its [e] or [E] on. *)
Definition read_exponent (s : string) : Z :=
  match s with
  | String c s' =>
      if bool_decide (c = "e"%char) || bool_decide (c = "E"%char) then
        match s' with
        | String sign s'' =>
            if bool_decide (sign = "-"%char)
            then (- (read_digits s'' 0 0).1.1)%Z
            else if bool_decide (sign = "+"%char)
            then (read_digits s'' 0 0).1.1
            else (read_digits s' 0 0).1.1
        | EmptyString => 0%Z
        end
      else 0%Z
  | EmptyString => 0%Z
  end.

(** The literal is [digits * 10^scale], up to its sign. *)
Definition denotes_zero (lit : string) : bool :=
  let unsigned :=
    match lit with
    | String c s' => if bool_decide (c = "-"%char) then s' else lit
    | EmptyString => lit
    end in
  let '(whole, _, rest) := read_digits unsigned 0 0 in
  let '(digits, places, rest') :=
    match rest with
    | String c s' =>
        if bool_decide (c = "."%char) then read_digits s' whole 0
        else (whole, 0%Z, rest)
    | EmptyString => (whole, 0%Z, rest)
    end in
  let scale := (read_exponent rest' - places)%Z in
  (digits =? 0)%Z
  || ((scale <? 0)%Z && (digits * 2 ^ 1075 <=? 10 ^ (- scale))%Z).

Definition truthy (v : JSValue) : bool :=
  match v with
  | JUndefined | JNull => false
  | JBool b => b
  | JNumber lit => negb (denotes_zero lit)
  | JString s => negb (bool_decide (s = ""))
  | JArray _ | JObject _ => true
  end.

(** [typeof v === "object"] *)
Definition typeof_object (v : JSValue) : bool :=
  match v with
  | JNull | JArray _ | JObject _ => true
  | _ => false
  end.

(** An object of the hook's state: a finite map from property names. *)
Abbreviation Obj := (gmap string JSValue).

(** [{ ...target, ...members }] for the members of an object literal or of a
    parsed object, left to right. *)
Definition assign (target : Obj) (members : list (string * JSValue)) : Obj :=
  foldl (λ m kv, <[kv.1 := kv.2]> m) target members.

(** The indexed elements of an array or of a string, as properties. *)
Fixpoint indexed {A} (f : A → JSValue) (i : nat) (l : list A)
  : list (string * JSValue) :=
  match l with
  | [] => []
  | x :: l' => (pretty i, f x) :: indexed f (S i) l'
  end.

(** The own enumerable properties a spread [...v] copies: the members of an
    object, the elements of an array, the characters of a string, and
    nothing for [null], [undefined], booleans and numbers. *)
Definition own_properties (v : JSValue) : list (string * JSValue) :=
  match v with
  | JObject members => members
  | JArray items => indexed id 0 items
  | JString s => indexed (λ c, JString (String c EmptyString)) 0
                   (list_ascii_of_string s)
  | _ => []
  end.

(** [{ ...target, ...v }] *)
Definition spread (target : Obj) (v : JSValue) : Obj :=
  assign target (own_properties v).

(** [v.key], for a key that no prototype defines ([type], [object]):
    [None] is the TypeError a property access on [null] or [undefined]
    throws. *)
Definition get (v : JSValue) (key : string) : option JSValue :=
  match v with
  | JUndefined | JNull => None
  | JObject members => Some (default JUndefined (assign ∅ members !! key))
  | _ => Some JUndefined
  end.

End JS.
Export JS.

(** ** The platform *)

(** What the hook calls and does not define: the streaming text decoder
    ([new TextDecoder()] and [decoder.decode(value, { stream: true })], which
    keeps the bytes of an unfinished character for the next call),
    [JSON.parse] ([None] when it throws) and [JSON.stringify]. *)
Class Runtime : Type := {
  Uint8Array : Type;
  TextDecoder : Type;
  new_TextDecoder : TextDecoder;
  decode : TextDecoder → Uint8Array → string * TextDecoder;
  JSON_parse : string → option JSValue;
  JSON_stringify : JSValue → string;
}.

(** ** The hook's types *)

Inductive ConnectionStatus : Type :=
  | Idle | Connecting | Connected | Completed | Error | Stopped.

Global Instance ConnectionStatus_eq_dec : EqDecision ConnectionStatus.
Proof. solve_decision. Defined.

Inductive Method : Type := GET | POST | PUT | DELETE.

Inductive RequestCredentials : Type := omit | same_origin | include.

(** [StreamingOptions], without the four observers: a call of an observer is
    recorded in the trace of effects ([Effect]), and an observer neither
    throws nor calls back into the hook. *)
Record StreamingOptions : Type := {
  url : string;
  method : option Method;
  headers : gmap string string;
  credentials : option RequestCredentials;
  body : JSValue;
}.

(** [StreamingState] *)
Record StreamingState : Type := mkState {
  data : Obj;
  isStreaming : bool;
  error : option string;
  connectionStatus : ConnectionStatus;
}.

(** [Partial<StreamingState>] *)
Record Updates : Type := {
  set_data : option Obj;
  set_isStreaming : option bool;
  set_error : option (option string);
  set_connectionStatus : option ConnectionStatus;
}.

(** [RequestInit], as [startStreaming] fills it. *)
Record RequestInit : Type := {
  req_method : Method;
  req_headers : gmap string string;
  req_credentials : RequestCredentials;
  req_signal : nat;
  req_body : option string;
}.

(** The fields of the [Response] that the hook reads. *)
Record Response : Type := {
  ok : bool;
  status : nat;
  has_body : bool;
}.

(** Everything the hook does to the outside, in order: the observers it
    calls, the console, and the request it issues. *)
Inductive Effect : Type :=
  | onStatusChange (s : ConnectionStatus)
  | onData (v : JSValue)
  | onError (msg : string)
  | onComplete
  | console_warn (jsonStr : string)
  | console_error (err : JSError)
  | fetch (u : string) (init : RequestInit).

(** ** State updates with a trace *)

(** A piece of the hook's code: it updates the React state (every update of
    the source is a functional update, so they apply in program order) and
    calls observers. *)
Definition M (A : Type) : Type :=
  StreamingState → A * StreamingState * list Effect.

Global Instance M_ret : MRet M := λ A a st, (a, st, []).

Global Instance M_bind : MBind M := λ A B k m st,
  let '(a, st1, e1) := m st in
  let '(b, st2, e2) := k a st1 in
  (b, st2, e1 ++ e2).

Definition emit (e : Effect) : M unit := λ st, (tt, st, [e]).

(** [setState(f)] *)
Definition setState (f : StreamingState → StreamingState) : M unit :=
  λ st, (tt, f st, []).

(** [{ ...prev, ...updates }] *)
Definition merge_updates (prev : StreamingState) (u : Updates) : StreamingState :=
  {| data := default (data prev) (set_data u);
     isStreaming := default (isStreaming prev) (set_isStreaming u);
     error := default (error prev) (set_error u);
     connectionStatus := default (connectionStatus prev) (set_connectionStatus u) |}.

Definition updateState (updates : Updates) : M unit :=
  setState (λ prev, merge_updates prev updates).

Definition updateConnectionStatus (s : ConnectionStatus) : M unit :=
  updateState {| set_data := None; set_isStreaming := None; set_error := None;
                 set_connectionStatus := Some s |} ;;
  emit (onStatusChange s).

(** The three statements that end a session normally (they occur three
    times in [processStream]). *)
Definition complete : M unit :=
  updateConnectionStatus Completed ;;
  updateState {| set_data := None; set_isStreaming := Some false;
                 set_error := None; set_connectionStatus := None |} ;;
  emit onComplete.

(** ** The hook *)

(** How the body of the [for (const line of lines)] loop ends: it goes on
    with the next line ([continue], or the end of the body), or it returns
    from [processStream]. *)
Inductive Flow : Type := Next | Return.

(** The settlement of [await reader.read()] and of [await fetch(...)]. *)
Inductive ReadResult `{Runtime} : Type :=
  | read_done
  | read_value (value : Uint8Array)
  | read_rejected (err : JSError).

Inductive FetchResult : Type :=
  | fetch_resolved (response : Response)
  | fetch_rejected (err : JSError).

(** Where an invocation of [startStreaming] stands: suspended at
    [await fetch], suspended at [await reader.read()] with its decoder, or
    returned. *)
Inductive Phase `{Runtime} : Type :=
  | await_fetch
  | await_read (decoder : TextDecoder)
  | settled.

(** [v === s] for a string literal [s] *)
Definition strict_equals (v : JSValue) (s : string) : bool :=
  match v with
  | JString s' => bool_decide (s' = s)
  | _ => false
  end.

(** [{ ...prev, data: { ...prev.data, ...v } }] *)
Definition merge_data (v : JSValue) (prev : StreamingState) : StreamingState :=
  {| data := spread (data prev) v;
     isStreaming := isStreaming prev;
     error := error prev;
     connectionStatus := connectionStatus prev |}.

Section Hook.
Context `{Runtime}.
Variable options : StreamingOptions.

(** The [try { ... } catch (parseError) { ... }] of [processStream]. Both
    exceptions of the block, the SyntaxError of [JSON.parse] and the
    TypeError of [data.type] on [null], end in the [console.warn] of the
    handler; no state was updated before either. *)
Definition processRecord (jsonStr : string) : M Flow :=
  match JSON_parse jsonStr with
  | None => emit (console_warn jsonStr);; mret Next
  | Some data =>
      (if truthy data && typeof_object data
       then setState (merge_data data);; emit (onData data)
       else mret tt);;
      match get data "type" with
      | None => emit (console_warn jsonStr);; mret Next
      | Some type =>
          if strict_equals type "object" then
            let object := default JUndefined (get data "object") in
            setState (merge_data object);; emit (onData object);; mret Next
          else if strict_equals type "finish" then
            complete;; mret Return
          else mret Next
      end
  end.

(** The body of [for (const line of lines)]. *)
Definition processLine (line : string) : M Flow :=
  if bool_decide (trim line = "") then mret Next
  else if startsWith line "data: " then
    let jsonStr := trim (slice line 6) in
    if bool_decide (jsonStr = "[DONE]") then complete;; mret Return
    else processRecord jsonStr
  else mret Next.

Fixpoint forLines (lines : list string) : M Flow :=
  match lines with
  | [] => mret Next
  | line :: lines' =>
      flow ← processLine line;
      match flow with
      | Return => mret Return
      | Next => forLines lines'
      end
  end.

(** The handler [catch (streamError)] of [processStream]. *)
Definition processStream_catch (streamError : JSError) : M unit :=
  if is_AbortError streamError then updateConnectionStatus Stopped
  else
    emit (console_error streamError);;
    let errorMessage := "Error processing stream" in
    updateState {| set_data := None; set_isStreaming := Some false;
                   set_error := Some (Some errorMessage);
                   set_connectionStatus := None |};;
    updateConnectionStatus Error;;
    emit (onError errorMessage).

(** One turn of [while (true)], from the settlement of [reader.read()] to
    the next [await]: the phase the invocation is left in. *)
Definition processStream (decoder : TextDecoder) (r : ReadResult) : M Phase :=
  match r with
  | read_rejected streamError => processStream_catch streamError;; mret settled
  | read_done => complete;; mret settled
  | read_value value =>
      let '(chunk, decoder') := decode decoder value in
      let lines := split_lines chunk in
      flow ← forLines lines;
      match flow with
      | Return => mret settled
      | Next => mret (await_read decoder')
      end
  end.

(** The handler [catch (err)] of [startStreaming]. *)
Definition startStreaming_catch (err : JSError) : M unit :=
  if is_AbortError err then updateConnectionStatus Stopped
  else
    emit (console_error err);;
    let errorMessage :=
      "Failed to start streaming: " +:+
      (if instanceof_Error err then message err else "Unknown error") in
    updateState {| set_data := None; set_isStreaming := Some false;
                   set_error := Some (Some errorMessage);
                   set_connectionStatus := None |};;
    updateConnectionStatus Error;;
    emit (onError errorMessage).

(** [startStreaming] from the settlement of [fetch] to the first
    [await reader.read()]. *)
Definition startStreaming_fetched (r : FetchResult) : M Phase :=
  match r with
  | fetch_rejected err => startStreaming_catch err;; mret settled
  | fetch_resolved response =>
      if negb (ok response) then
        startStreaming_catch
          (new_Error ("HTTP error! status: " +:+ pretty (status response)));;
        mret settled
      else if negb (has_body response) then
        startStreaming_catch (new_Error "No response body");; mret settled
      else
        updateConnectionStatus Connected;;
        mret (await_read new_TextDecoder)
  end.

(** [requestOptions] *)
Definition requestOptions (signal : nat) : RequestInit :=
  {| req_method := default POST (method options);
     req_headers := headers options ∪ {[ "Content-Type" := "application/json" ]};
     req_credentials := default include (credentials options);
     req_signal := signal;
     req_body := if truthy (body options)
                 then Some (JSON_stringify (body options)) else None |}.

(** [startStreaming] up to [await fetch(...)], after the guard. *)
Definition startStreaming_begin (signal : nat) : M unit :=
  updateState {| set_data := Some ∅; set_isStreaming := Some true;
                 set_error := Some None; set_connectionStatus := None |};;
  updateConnectionStatus Connecting;;
  emit (fetch (url options) (requestOptions signal)).

(** An invocation of [startStreaming]: the [AbortController] it created
    (whether [abort()] was called on it) and where it is suspended. *)
Record Call : Type := mkCall {
  aborted : bool;
  phase : Phase;
}.

(** One mounted instance of the hook: the React state, the ref, and the
    invocations of [startStreaming] so far, oldest first. The controller of
    invocation [i] is numbered [i]. [state] is the current React state, the
    one the updaters of [setState] receive; what a render showed is another
    matter, see [startStreaming]. *)
Record Hook : Type := mkHook {
  state : StreamingState;
  abortControllerRef : option nat;
  calls : list Call;
}.

Definition initial : Hook :=
  {| state := {| data := ∅; isStreaming := false; error := None;
                 connectionStatus := Idle |};
     abortControllerRef := None;
     calls := [] |}.

(** [if (abortControllerRef.current) abortControllerRef.current.abort()] *)
Definition abort (h : Hook) : list Call :=
  match abortControllerRef h with
  | Some i => alter (λ c, {| aborted := true; phase := phase c |}) i (calls h)
  | None => calls h
  end.

(** [startStreaming] is a closure of a render: the [state] of its guard,
    [if (state.isStreaming) return], is the state that render showed,
    [rendered], whatever the state of the hook is when the closure is
    called. Everything after the guard goes through [setState] with an
    updater and reads the current state. *)
Definition startStreaming (rendered : StreamingState) (h : Hook)
  : Hook * list Effect :=
  if isStreaming rendered then (h, [])
  else
    let signal := List.length (calls h) in
    let '(_, st, effects) := startStreaming_begin signal (state h) in
    ({| state := st;
        abortControllerRef := Some signal;
        calls := calls h ++ [ {| aborted := false; phase := await_fetch |} ] |},
     effects).

Definition stopStreaming (h : Hook) : Hook * list Effect :=
  let '(_, st, effects) :=
    (updateState {| set_data := None; set_isStreaming := Some false;
                    set_error := None; set_connectionStatus := None |};;
     updateConnectionStatus Stopped) (state h) in
  ({| state := st; abortControllerRef := abortControllerRef h;
      calls := abort h |}, effects).

Definition reset (h : Hook) : Hook * list Effect :=
  let '(_, st, effects) :=
    updateState {| set_data := Some ∅; set_isStreaming := Some false;
                   set_error := Some None; set_connectionStatus := Some Idle |}
      (state h) in
  ({| state := st; abortControllerRef := abortControllerRef h;
      calls := abort h |}, effects).

(** The cleanup of [useEffect]. *)
Definition cleanup (h : Hook) : Hook * list Effect :=
  ({| state := state h; abortControllerRef := abortControllerRef h;
      calls := abort h |}, []).

(** What happens to a hook: its owner calls an action or unmounts it, or the
    platform settles the promise an invocation awaits. A call of
    [startStreaming] is the call of the closure of some render, and comes
    with the state that render showed. *)
Inductive Input : Type :=
  | call_startStreaming (rendered : StreamingState)
  | call_stopStreaming
  | call_reset
  | unmount
  | fetch_settled (i : nat) (r : FetchResult)
  | read_settled (i : nat) (r : ReadResult).

(** Resume invocation [i] with [m], which yields its next phase. *)
Definition resume (h : Hook) (i : nat) (c : Call) (m : M Phase)
  : Hook * list Effect :=
  let '(ph, st, effects) := m (state h) in
  ({| state := st; abortControllerRef := abortControllerRef h;
      calls := <[ i := {| aborted := aborted c; phase := ph |} ]> (calls h) |},
   effects).

(** A settlement reaches the invocation that awaits it; any other is
    ignored. *)
Definition step (h : Hook) (inp : Input) : Hook * list Effect :=
  match inp with
  | call_startStreaming rendered => startStreaming rendered h
  | call_stopStreaming => stopStreaming h
  | call_reset => reset h
  | unmount => cleanup h
  | fetch_settled i r =>
      match calls h !! i with
      | Some c =>
          match phase c with
          | await_fetch => resume h i c (startStreaming_fetched r)
          | _ => (h, [])
          end
      | None => (h, [])
      end
  | read_settled i r =>
      match calls h !! i with
      | Some c =>
          match phase c with
          | await_read decoder => resume h i c (processStream decoder r)
          | _ => (h, [])
          end
      | None => (h, [])
      end
  end.

Fixpoint run (h : Hook) (inputs : list Input) : Hook * list Effect :=
  match inputs with
  | [] => (h, [])
  | inp :: inputs' =>
      let '(h1, e1) := step h inp in
      let '(h2, e2) := run h1 inputs' in
      (h2, e1 ++ e2)
  end.

(** What the platform guarantees of a settlement: it answers a pending
    await, and once [abort()] was called on the signal of the request, the
    pending [fetch] or read rejects with an AbortError and with nothing
    else. *)
Definition settles_pending (h : Hook) (inp : Input) : bool :=
  match inp with
  | fetch_settled i r =>
      match calls h !! i with
      | Some {| aborted := a; phase := await_fetch |} =>
          match r with
          | fetch_rejected err => if a then is_AbortError err else negb (is_AbortError err)
          | fetch_resolved _ => negb a
          end
      | _ => false
      end
  | read_settled i r =>
      match calls h !! i with
      | Some {| aborted := a; phase := await_read _ |} =>
          match r with
          | read_rejected err => if a then is_AbortError err else negb (is_AbortError err)
          | _ => negb a
          end
      | _ => false
      end
  | _ => false
  end.

Definition admissible_input (h : Hook) (inp : Input) : bool :=
  match inp with
  | fetch_settled _ _ | read_settled _ _ => settles_pending h inp
  | _ => true
  end.

Fixpoint admissible (h : Hook) (inputs : list Input) : bool :=
  match inputs with
  | [] => true
  | inp :: inputs' => admissible_input h inp && admissible (step h inp).1 inputs'
  end.

(** Settlements only, each admissible: the platform runs on while the owner
    does nothing. *)
Fixpoint settlements (h : Hook) (inputs : list Input) : bool :=
  match inputs with
  | [] => true
  | inp :: inputs' => settles_pending h inp && settlements (step h inp).1 inputs'
  end.

(** The owner calls [startStreaming] from an up-to-date render: the render
    whose closure is called shows the streaming flag the hook has at the
    call. This is so when React has rendered since the flag last changed;
    it is not so for a second call from the same render. *)
Definition up_to_date_input (h : Hook) (inp : Input) : bool :=
  match inp with
  | call_startStreaming rendered =>
      bool_decide (isStreaming rendered = isStreaming (state h))
  | _ => true
  end.

Fixpoint up_to_date (h : Hook) (inputs : list Input) : bool :=
  match inputs with
  | [] => true
  | inp :: inputs' => up_to_date_input h inp && up_to_date (step h inp).1 inputs'
  end.

(** The hooks reached from a fresh mount when every call of
    [startStreaming] comes from an up-to-date render. *)
Definition reachable_up_to_date (h : Hook) : Prop :=
  ∃ inputs, admissible initial inputs = true ∧ up_to_date initial inputs = true
            ∧ (run initial inputs).1 = h.

End Hook.

(** ** A platform for 7-bit streams *)

Module Browser.

Definition is_json_space (c : ascii) : bool :=
  match nat_of_ascii c with
  | 9 | 10 | 13 | 32 => true
  | _ => false
  end.

Definition is_digit (c : ascii) : bool :=
  let n := nat_of_ascii c in bool_decide (48 ≤ n ≤ 57).

Fixpoint skip_space (s : string) : string :=
  match s with
  | String c s' => if is_json_space c then skip_space s' else s
  | EmptyString => s
  end.

(** The longest prefix of digits, and the rest. *)
Fixpoint digits (s : string) : string * string :=
  match s with
  | String c s' =>
      if is_digit c then let '(d, r) := digits s' in (String c d, r)
      else (EmptyString, s)
  | EmptyString => (EmptyString, s)
  end.

Definition hex_digit (c : ascii) : option nat :=
  let n := nat_of_ascii c in
  if bool_decide (48 ≤ n ≤ 57) then Some (n - 48)
  else if bool_decide (65 ≤ n ≤ 70) then Some (n - 55)
  else if bool_decide (97 ≤ n ≤ 102) then Some (n - 87)
  else None.

(** The characters of a string literal after its opening quote, up to the
    closing one. An escape [\uXXXX] of a code unit above 255 is outside the
    strings of this model and is refused. *)
Fixpoint string_body (s : string) : option (string * string) :=
  match s with
  | EmptyString => None
  | String c s' =>
      if bool_decide (c = ascii_of_nat 34) then Some (EmptyString, s')
      else if bool_decide (c = ascii_of_nat 92) then
        match s' with
        | String e s'' =>
            let continue (ch : ascii) (rest : option (string * string)) :=
              '(t, r) ← rest; Some (String ch t, r) in
            match nat_of_ascii e with
            | 34 => continue (ascii_of_nat 34) (string_body s'')
            | 92 => continue (ascii_of_nat 92) (string_body s'')
            | 47 => continue (ascii_of_nat 47) (string_body s'')
            | 98 => continue (ascii_of_nat 8) (string_body s'')
            | 102 => continue (ascii_of_nat 12) (string_body s'')
            | 110 => continue (ascii_of_nat 10) (string_body s'')
            | 114 => continue (ascii_of_nat 13) (string_body s'')
            | 116 => continue (ascii_of_nat 9) (string_body s'')
            | 117 =>
                match s'' with
                | String a (String b (String c1 (String d s3))) =>
                    match hex_digit a, hex_digit b, hex_digit c1, hex_digit d with
                    | Some 0, Some 0, Some x, Some y =>
                        continue (ascii_of_nat (16 * x + y)) (string_body s3)
                    | _, _, _, _ => None
                    end
                | _ => None
                end
            | _ => None
            end
        | EmptyString => None
        end
      else if bool_decide (nat_of_ascii c < 32) then None
      else '(t, r) ← string_body s'; Some (String c t, r)
  end.

(** A number literal: an optional minus sign, an integer part without a
    leading zero (or 0 alone), an optional fraction, an optional exponent. *)
Definition number (s : string) : option (string * string) :=
  let '(sign, s1) :=
    match s with
    | String "-" s' => ("-", s')
    | _ => ("", s)
    end in
  let '(int, s2) := digits s1 in
  if bool_decide (int = "") then None
  else if startsWith int "0" && negb (bool_decide (int = "0")) then None
  else
    '(frac, s3) ←
      match s2 with
      | String "." s' =>
          let '(d, r) := digits s' in
          if bool_decide (d = "") then None else Some ("." +:+ d, r)
      | _ => Some ("", s2)
      end;
    '(exp, s4) ←
      match s3 with
      | String e s' =>
          if bool_decide (e = "e"%char) || bool_decide (e = "E"%char) then
            let '(sg, s'') :=
              match s' with
              | String "+" r => ("+", r)
              | String "-" r => ("-", r)
              | _ => ("", s')
              end in
            let '(d, r) := digits s'' in
            if bool_decide (d = "") then None
            else Some (String e (sg +:+ d), r)
          else Some ("", s3)
      | EmptyString => Some ("", s3)
      end;
    Some (sign +:+ int +:+ frac +:+ exp, s4).

(** A JSON value at the head of [s], and the rest. The fuel bounds the
    nesting; every nested call comes after a consumed character. *)
Fixpoint value (fuel : nat) (s : string) {struct fuel}
  : option (JSValue * string) :=
  match fuel with
  | O => None
  | S fuel' =>
      match skip_space s with
      | String c s' =>
          match nat_of_ascii c with
          | 123 (* { *) =>
              match skip_space s' with
              | String "}" r => Some (JObject [], r)
              | s'' => '(ms, r) ← members fuel' s''; Some (JObject ms, r)
              end
          | 91 (* [ *) =>
              match skip_space s' with
              | String "]" r => Some (JArray [], r)
              | s'' => '(vs, r) ← elements fuel' s''; Some (JArray vs, r)
              end
          | 34 => '(t, r) ← string_body s'; Some (JString t, r)
          | _ =>
              let s0 := String c s' in
              if startsWith s0 "true" then Some (JBool true, slice s0 4)
              else if startsWith s0 "false" then Some (JBool false, slice s0 5)
              else if startsWith s0 "null" then Some (JNull, slice s0 4)
              else '(lit, r) ← number s0; Some (JNumber lit, r)
          end
      | EmptyString => None
      end
  end
with members (fuel : nat) (s : string) {struct fuel}
  : option (list (string * JSValue) * string) :=
  match fuel with
  | O => None
  | S fuel' =>
      match skip_space s with
      | String c s' =>
          if bool_decide (c = ascii_of_nat 34) then
            '(k, r) ← string_body s';
            match skip_space r with
            | String ":" r1 =>
                '(v, r2) ← value fuel' r1;
                match skip_space r2 with
                | String "," r3 =>
                    '(ms, r4) ← members fuel' r3; Some ((k, v) :: ms, r4)
                | String "}" r3 => Some ([(k, v)], r3)
                | _ => None
                end
            | _ => None
            end
          else None
      | EmptyString => None
      end
  end
with elements (fuel : nat) (s : string) {struct fuel}
  : option (list JSValue * string) :=
  match fuel with
  | O => None
  | S fuel' =>
      '(v, r) ← value fuel' s;
      match skip_space r with
      | String "," r1 => '(vs, r2) ← elements fuel' r1; Some (v :: vs, r2)
      | String "]" r1 => Some ([v], r1)
      | _ => None
      end
  end.

(** [JSON.parse(text)]: a single value between optional white space. *)
Definition parse (text : string) : option JSValue :=
  '(v, r) ← value (S (S (String.length text))) text;
  if bool_decide (skip_space r = "") then Some v else None.

(** [JSON.stringify] of a string: quotes and backslashes escaped. *)
Fixpoint quote_body (s : string) : string :=
  match s with
  | EmptyString => EmptyString
  | String c s' =>
      if bool_decide (c = ascii_of_nat 34) || bool_decide (c = ascii_of_nat 92)
      then String (ascii_of_nat 92) (String c (quote_body s'))
      else String c (quote_body s')
  end.

Definition quote (s : string) : string :=
  String (ascii_of_nat 34) (quote_body s +:+ String (ascii_of_nat 34) "").

Definition join (l : list string) : string :=
  match l with
  | [] => ""
  | x :: l' => foldl (λ acc y, acc +:+ "," +:+ y) x l'
  end.

(** [JSON.stringify(v)] for a parsed value. *)
Fixpoint stringify (v : JSValue) : string :=
  match v with
  | JUndefined | JNull => "null"
  | JBool true => "true"
  | JBool false => "false"
  | JNumber lit => lit
  | JString s => quote s
  | JArray items => "[" +:+ join (map stringify items) +:+ "]"
  | JObject ms =>
      "{" +:+ join (map (λ kv, quote kv.1 +:+ ":" +:+ stringify kv.2) ms) +:+ "}"
  end.

(** Chunks of bytes below 128: each byte is its character, and no byte is
    ever held back for the next chunk. *)
Global Instance runtime : Runtime := {|
  Uint8Array := string;
  TextDecoder := unit;
  new_TextDecoder := tt;
  decode := λ decoder value, (value, decoder);
  JSON_parse := parse;
  JSON_stringify := stringify;
|}.

(** A text with each apostrophe read as a double quote, to write JSON
    texts. *)
Fixpoint dq (s : string) : string :=
  match s with
  | EmptyString => EmptyString
  | String c s' =>
      String (if bool_decide (c = "'"%char) then ascii_of_nat 34 else c) (dq s')
  end.

(** A line of text ending in a line feed. *)
Definition line (s : string) : string := s +:+ String LF "".

(** The options of the examples: the defaults, no request body. *)
Definition options : StreamingOptions :=
  {| url := "/api/stream"; method := None; headers := ∅;
     credentials := None; body := JUndefined |}.

(** A hook whose only invocation is connected and awaits its first chunk. *)
Definition reading : Hook :=
  {| state := {| data := ∅; isStreaming := true; error := None;
                 connectionStatus := Connected |};
     abortControllerRef := Some 0;
     calls := [ {| aborted := false; phase := await_read tt |} ] |}.

(** The response of a server that streams. *)
Definition OK : Response := {| ok := true; status := 200; has_body := true |}.

End Browser.

(** ** Vocabulary of the properties *)

Ltac unfold_M :=
  unfold complete, updateConnectionStatus, updateState, setState, emit,
    mbind, M_bind, mret, M_ret.

(** The state [complete] leaves. *)
Definition completed_state (st : StreamingState) : StreamingState :=
  {| data := data st; isStreaming := false; error := error st;
     connectionStatus := Completed |}.

(** A line that carries the terminator: [data: [DONE]], possibly followed or
    separated by white space. *)
Definition is_done_line (l : string) : bool :=
  startsWith l "data: " && bool_decide (trim (slice l 6) = "[DONE]").

(** The observer calls of a trace: everything but the console. *)
Definition is_observer_call (e : Effect) : bool :=
  match e with
  | console_warn _ | console_error _ => false
  | _ => true
  end.

Definition is_onData (e : Effect) : bool :=
  match e with onData _ => true | _ => false end.

Definition is_onError (e : Effect) : bool :=
  match e with onError _ => true | _ => false end.

(** An input that settles a promise of invocation [i]. *)
Definition settles_call `{Runtime} (i : nat) (inp : Input) : Prop :=
  match inp with
  | fetch_settled j _ | read_settled j _ => j = i
  | _ => False
  end.

(** The chunk of the finish scenario: [data: {"type":"finish"}] and a line
    feed. *)
Definition finish_text : string := Browser.dq "{'type':'finish'}".
Definition finish_chunk : string := Browser.line ("data: " +:+ finish_text).
Definition finish_record : JSValue := JObject [("type", JString "finish")].

(** The claim on partial objects, in the words of the specification: for a
    record of type "object" with a nested object, the nested object is
    merged instead of the outer one, and the data observer is notified with
    the nested object. *)
Definition nested_merged_instead_of_outer `{Runtime} (jsonStr : string) : Prop :=
  ∀ (outer nested : list (string * JSValue)) (st : StreamingState),
    JSON_parse jsonStr = Some (JObject outer) →
    get (JObject outer) "type" = Some (JString "object") →
    get (JObject outer) "object" = Some (JObject nested) →
    processRecord jsonStr st =
      (Next, merge_data (JObject nested) st, [onData (JObject nested)]).

(** The invocation that a fresh [startStreaming] adds. *)
Definition fetching `{Runtime} : Call := {| aborted := false; phase := await_fetch |}.

(** The error message of a response that is refused. *)
Definition rejection_message (r : Response) : string :=
  "Failed to start streaming: " +:+
  (if ok r then "No response body"
   else "HTTP error! status: " +:+ pretty (status r)).

(** The finish scenario: a fresh session, started from the render of the
    hook's state, a response that streams, and the chunk [finish_chunk] as
    the first one read. *)
Definition finish_scenario `{Runtime} (options : StreamingOptions) (h : Hook)
    (r : Response) (value : Uint8Array) : Hook * list Effect :=
  let i := List.length (calls h) in
  run options h [call_startStreaming (state h);
                 fetch_settled i (fetch_resolved r);
                 read_settled i (read_value value)].

(** A session, started from the render of the hook's state, whose response
    is not accepted. *)
Definition rejected_scenario `{Runtime} (options : StreamingOptions) (h : Hook)
    (r : Response) : Hook * list Effect :=
  let i := List.length (calls h) in
  run options h [call_startStreaming (state h);
                 fetch_settled i (fetch_resolved r)].

(** ** Sessions and the invariant of a mounted hook *)

(** An invocation that has not returned. *)
Definition pending `{Runtime} (c : Call) : bool :=
  match phase c with
  | settled => false
  | _ => true
  end.

(** A session is active: an invocation of [startStreaming] has not returned
    and its request was not aborted. *)
Definition session_active `{Runtime} (h : Hook) : Prop :=
  ∃ j c, calls h !! j = Some c ∧ pending c = true ∧ aborted c = false.

(** The two statuses of a session in progress. *)
Definition in_progress (s : ConnectionStatus) : bool :=
  match s with
  | Connecting | Connected => true
  | _ => false
  end.

(** The three terminal statuses. *)
Definition terminal (s : ConnectionStatus) : bool :=
  match s with
  | Completed | Error | Stopped => true
  | _ => false
  end.

(** What holds of every hook reached from a fresh mount by calls of
    [startStreaming] from up-to-date renders: the ref holds the
    controller of the latest invocation; an invocation that is pending and
    not aborted is the latest one, and then the hook is streaming; and the
    hook is streaming whenever its status is connecting or connected. *)
Record invariant `{Runtime} (h : Hook) : Prop := {
  inv_ref :
    match abortControllerRef h with
    | None => calls h = []
    | Some i => S i = List.length (calls h)
    end;
  inv_live : ∀ j c,
    calls h !! j = Some c → pending c = true → aborted c = false →
    S j = List.length (calls h) ∧ isStreaming (state h) = true;
  inv_status :
    in_progress (connectionStatus (state h)) = true →
    isStreaming (state h) = true;
}.

(** Every pending invocation has been aborted. *)
Definition all_aborted `{Runtime} (h : Hook) : Prop :=
  ∀ j c, calls h !! j = Some c → pending c = true → aborted c = true.

(** The state after [updateConnectionStatus("stopped")]. *)
Definition stopped_state (st : StreamingState) : StreamingState :=
  {| data := data st; isStreaming := isStreaming st; error := error st;
     connectionStatus := Stopped |}.

(** The outcome of resuming an invocation whose request was not aborted:
    it has returned and the hook no longer streams, or it awaits again and
    the streaming flag is as before. *)
Definition live_outcome `{Runtime} (st : StreamingState)
    (out : Phase * StreamingState * list Effect) : Prop :=
  (out.1.1 = settled ∧ isStreaming out.1.2 = false
   ∧ in_progress (connectionStatus out.1.2) = false)
  ∨ (out.1.1 ≠ settled ∧ isStreaming out.1.2 = isStreaming st).

(** A session that its owner unmounts while it reads: the cleanup aborts the
    request, and the pending read rejects with the AbortError. *)
Definition teardown_trace : list (Input (H := Browser.runtime)) :=
  [call_startStreaming (state initial);
   fetch_settled 0 (fetch_resolved Browser.OK);
   unmount; read_settled 0 (read_rejected AbortError)].

(** Two calls of [startStreaming] from the first render, as
    [startStreaming(); startStreaming()] in one handler makes them: both
    closures show the state of that render. *)
Definition double_start_trace : list (Input (H := Browser.runtime)) :=
  [call_startStreaming (state initial); call_startStreaming (state initial)].

(** After the two calls the owner calls [stopStreaming]; the [fetch] of the
    second request, which was aborted, rejects; the [fetch] of the first
    resolves and its stream carries a record. *)
Definition stale_session_trace : list (Input (H := Browser.runtime)) :=
  double_start_trace
  ++ [call_stopStreaming;
      fetch_settled 1 (fetch_rejected AbortError);
      fetch_settled 0 (fetch_resolved Browser.OK);
      read_settled 0 (read_value (Browser.line (Browser.dq "data: {'a':1}")))].

(** The inputs that lead a fresh hook to read its stream. *)
Definition connected_trace : list (Input (H := Browser.runtime)) :=
  [call_startStreaming (state initial);
   fetch_settled 0 (fetch_resolved Browser.OK)].

(** ** Whole streams *)

(** The texts the decoder returns for the chunks of a stream, in order. *)
Fixpoint decode_all `{Runtime} (decoder : TextDecoder) (values : list Uint8Array)
  : list string :=
  match values with
  | [] => []
  | value :: values' =>
      (decode decoder value).1 :: decode_all (decode decoder value).2 values'
  end.

(** The text of the whole stream. *)
Definition whole_text (texts : list string) : string :=
  foldr String.append "" texts.

(** A whole session: [startStreaming] is called from the render of the
    hook's state, the response arrives, every chunk is read, and the stream
    ends. *)
Definition stream_session `{Runtime} (options : StreamingOptions) (h : Hook)
    (r : Response) (values : list Uint8Array) : Hook * list Effect :=
  let i := List.length (calls h) in
  run options h
    (call_startStreaming (state h) :: fetch_settled i (fetch_resolved r) ::
     map (λ value, read_settled i (read_value value)) values
     ++ [read_settled i read_done]).

(** What [processRecord] spreads into the result for a parsed record, in
    order: the value itself when it is an object or an array, then its
    [object] property when its [type] is "object". *)
Definition record_merges `{Runtime} (jsonStr : string) : list JSValue :=
  match JSON_parse jsonStr with
  | None => []
  | Some v =>
      (if truthy v && typeof_object v then [v] else []) ++
      match get v "type" with
      | Some type =>
          if strict_equals type "object"
          then [default JUndefined (get v "object")] else []
      | None => []
      end
  end.

(** A record of type "finish". *)
Definition record_finishes `{Runtime} (jsonStr : string) : bool :=
  match JSON_parse jsonStr with
  | Some v =>
      match get v "type" with
      | Some type => negb (strict_equals type "object") && strict_equals type "finish"
      | None => false
      end
  | None => false
  end.

(** What a line contributes, and whether it ends the session. *)
Definition line_merges `{Runtime} (l : string) : list JSValue :=
  if bool_decide (trim l = "") then []
  else if startsWith l "data: " then
    if bool_decide (trim (slice l 6) = "[DONE]") then []
    else record_merges (trim (slice l 6))
  else [].

Definition line_ends `{Runtime} (l : string) : bool :=
  negb (bool_decide (trim l = "")) && startsWith l "data: " &&
  (bool_decide (trim (slice l 6) = "[DONE]") || record_finishes (trim (slice l 6))).

(** The values merged for a sequence of lines: those of each line up to and
    including the first line that ends the session. *)
Fixpoint merges `{Runtime} (lines : list string) : list JSValue :=
  match lines with
  | [] => []
  | l :: lines' => line_merges l ++ (if line_ends l then [] else merges lines')
  end.

(** The left-to-right shallow merge of values into the empty object. *)
Definition shallow_merge (vs : list JSValue) : Obj := foldl spread ∅ vs.

(** A text that is empty or ends with a line feed. *)
Fixpoint ends_with_line_feed (s : string) : bool :=
  match s with
  | EmptyString => true
  | String c EmptyString => bool_decide (c = LF)
  | String _ s' => ends_with_line_feed s'
  end.

(** No chunk boundary falls inside a line: every text but the last is empty
    or ends with a line feed. *)
Fixpoint cut_at_line_feeds (texts : list string) : bool :=
  match texts with
  | [] => true
  | t :: texts' =>
      match texts' with
      | [] => true
      | _ :: _ => ends_with_line_feed t && cut_at_line_feeds texts'
      end
  end.

(** The claim on chunk boundaries, in the words of the specification. The
    stream is valid when every line of the whole text is blank or a record
    [data: {json}] whose JSON text parses to an object. The payload of a
    record is its nested object when its type is "object", and the object
    itself otherwise; a record of type "finish" and the terminator [[DONE]]
    end the stream and merge nothing. The result is the left-to-right
    shallow merge of the payloads. *)
Definition valid_line `{Runtime} (l : string) : bool :=
  bool_decide (trim l = "")
  || startsWith l "data: "
     && (bool_decide (trim (slice l 6) = "[DONE]")
         || match JSON_parse (trim (slice l 6)) with
            | Some (JObject _) => true
            | _ => false
            end).

Definition valid_stream `{Runtime} (text : string) : bool :=
  forallb valid_line (split_lines text).

Definition payload (v : JSValue) : JSValue :=
  match get v "type" with
  | Some type =>
      if strict_equals type "object" then default JUndefined (get v "object")
      else v
  | None => v
  end.

Definition is_finish (v : JSValue) : bool :=
  match get v "type" with
  | Some type => strict_equals type "finish"
  | None => false
  end.

Fixpoint payloads `{Runtime} (lines : list string) : list JSValue :=
  match lines with
  | [] => []
  | l :: lines' =>
      if startsWith l "data: " then
        if bool_decide (trim (slice l 6) = "[DONE]") then []
        else match JSON_parse (trim (slice l 6)) with
             | Some v => if is_finish v then [] else payload v :: payloads lines'
             | None => payloads lines'
             end
      else payloads lines'
  end.

Definition merge_of_all_records `{Runtime} (text : string) : Obj :=
  shallow_merge (payloads (split_lines text)).

Definition chunking_independent `{Runtime} (options : StreamingOptions)
    (h : Hook) (r : Response) (values : list Uint8Array) : Prop :=
  let text := whole_text (decode_all new_TextDecoder values) in
  valid_stream text = true →
  data (state (stream_session options h r values).1) = merge_of_all_records text.

(** A line that is blank, or a record whose JSON text parses to an object
    with neither discriminator. *)
Definition plain_line `{Runtime} (l : string) : bool :=
  bool_decide (trim l = "")
  || startsWith l "data: "
     && negb (bool_decide (trim (slice l 6) = "[DONE]"))
     && match JSON_parse (trim (slice l 6)) with
        | Some (JObject members) =>
            negb (strict_equals (default JUndefined (get (JObject members) "type")) "object")
            && negb (is_finish (JObject members))
        | _ => false
        end.

(** One record, cut inside its JSON text. *)
Definition split_record : list string :=
  [Browser.dq "data: {'a'"; Browser.line (Browser.dq ":1}")].

(** ** Further vocabulary: what the hook tells its observers *)

Definition is_onComplete (e : Effect) : bool :=
  match e with onComplete => true | _ => false end.

(** The statuses announced to [onStatusChange], in order. *)
Definition announced (effects : list Effect) : list ConnectionStatus :=
  omap (λ e, match e with onStatusChange s => Some s | _ => None end) effects.

(** The calls that tell the owner how the session goes: status changes,
    completion and errors. *)
Definition is_lifecycle (e : Effect) : bool :=
  match e with
  | onStatusChange _ | onComplete | onError _ => true
  | _ => false
  end.

(** A JSON value that is neither an object, an array nor [null]. *)
Definition is_scalar (v : JSValue) : bool :=
  match v with
  | JBool _ | JNumber _ | JString _ => true
  | _ => false
  end.

(** A line that carries a record of type "finish". *)
Definition is_finish_line `{Runtime} (l : string) : bool :=
  startsWith l "data: "
  && negb (bool_decide (trim (slice l 6) = "[DONE]"))
  && record_finishes (trim (slice l 6)).

(** The owner's calls that clear the accumulated result. *)
Definition clears_data `{Runtime} (inp : Input) : bool :=
  match inp with
  | call_startStreaming _ | call_reset => true
  | _ => false
  end.

(** The message of the handler of [startStreaming] for an error that is not
    an abort. *)
Definition start_failure_message (err : JSError) : string :=
  "Failed to start streaming: " +:+
  (if instanceof_Error err then message err else "Unknown error").

(** A session, started from the render of the hook's state, whose request
    fails before any response. *)
Definition failed_fetch_scenario `{Runtime} (options : StreamingOptions)
    (h : Hook) (err : JSError) : Hook * list Effect :=
  let i := List.length (calls h) in
  run options h [call_startStreaming (state h);
                 fetch_settled i (fetch_rejected err)].

(** A session, started from the render of the hook's state, whose stream
    breaks after some chunks. *)
Definition broken_stream_session `{Runtime} (options : StreamingOptions)
    (h : Hook) (r : Response) (values : list Uint8Array) (err : JSError)
  : Hook * list Effect :=
  let i := List.length (calls h) in
  run options h
    (call_startStreaming (state h) :: fetch_settled i (fetch_resolved r) ::
     map (λ value, read_settled i (read_value value)) values
     ++ [read_settled i (read_rejected err)]).

(** The lines the loop sees: those of each decoded chunk, chunk by chunk. *)
Definition lines_seen `{Runtime} (values : list Uint8Array) : list string :=
  flat_map split_lines (decode_all new_TextDecoder values).

(** The statuses in which nothing is in flight and nothing was cancelled. *)
Definition quiet (s : ConnectionStatus) : bool :=
  match s with
  | Idle | Completed | Error => true
  | _ => false
  end.

(** The streaming flag agrees with a quiet status, and the status [error]
    comes with a message. *)
Definition flags_agree (st : StreamingState) : Prop :=
  (quiet (connectionStatus st) = true → isStreaming st = false)
  ∧ (connectionStatus st = Error → is_Some (error st)).


(** A state with its result replaced. *)
Definition with_data (st : StreamingState) (d : Obj) : StreamingState :=
  {| data := d; isStreaming := isStreaming st; error := error st;
     connectionStatus := connectionStatus st |}.

(** The state after the handler of [processStream] for an error that is not
    an abort. *)
Definition stream_error_state (st : StreamingState) : StreamingState :=
  {| data := data st; isStreaming := false;
     error := Some "Error processing stream"; connectionStatus := Error |}.

(** Carriage return, and a line with one at its end, as a stream with CRLF
    line ends gives after [split("\n")]. *)
Definition CR : ascii := ascii_of_nat 13.

Definition with_CR (l : string) : string := l +:+ String CR "".

Fixpoint has_char (c : ascii) (s : string) : bool :=
  match s with
  | EmptyString => false
  | String a s' => bool_decide (a = c) || has_char c s'
  end.


(** Options that set their own method, credentials and headers. *)
Definition custom_options : StreamingOptions :=
  {| url := "/api/stream"; method := Some GET;
     headers := {[ "Content-Type" := "text/plain"; "Authorization" := "Bearer t" ]};
     credentials := Some omit;
     body := JObject [("prompt", JString "hi")] |}.

(** * The components that use the hook

    [UserStoryGenerator] (src/App.tsx) and [FigmaCodeGenerator]
    (src/components/FigmaCodeGenerator.tsx) keep the same three pieces of
    state beside the hook and update them in the same effect. *)

Module Generator.

(** [typewriterData], [isTypewriterActive], [hasData] *)
Record View : Type := mkView {
  typewriterData : Obj;
  isTypewriterActive : bool;
  hasData : bool;
}.

Definition setTypewriterData (d : Obj) (v : View) : View :=
  {| typewriterData := d; isTypewriterActive := isTypewriterActive v;
     hasData := hasData v |}.

Definition setIsTypewriterActive (b : bool) (v : View) : View :=
  {| typewriterData := typewriterData v; isTypewriterActive := b;
     hasData := hasData v |}.

Definition setHasData (b : bool) (v : View) : View :=
  {| typewriterData := typewriterData v; isTypewriterActive := isTypewriterActive v;
     hasData := b |}.

(** The view of a freshly mounted component. *)
Definition empty_view : View :=
  {| typewriterData := ∅; isTypewriterActive := false; hasData := false |}.

(** [Object.keys(data).length > 0] *)
Definition has_keys (d : Obj) : bool := negb (bool_decide (d = ∅)).

(** The effect on [streamingState.data], [streamingState.isStreaming],
    [streamingState.connectionStatus] and [hasData], without its
    [console.log]: the setters are applied in program order to the view of
    the render; [hasData] is read from that render. *)
Definition sync (streamingState : StreamingState) (v : View) : View :=
  if isStreaming streamingState then
    let v1 := if negb (hasData v)
              then setIsTypewriterActive false (setTypewriterData ∅ v)
              else v in
    let v2 := setIsTypewriterActive true
                (setTypewriterData (data streamingState) v1) in
    if has_keys (data streamingState) then setHasData true v2 else v2
  else if bool_decide (connectionStatus streamingState = Completed) then
    let v1 := setIsTypewriterActive false
                (setTypewriterData (data streamingState) v) in
    if has_keys (data streamingState) then setHasData true v1 else v1
  else if bool_decide (connectionStatus streamingState = Idle)
          && negb (hasData v) then
    setHasData false (setIsTypewriterActive false (setTypewriterData ∅ v))
  else v.

(** The handler of the button "Clear Results". *)
Definition clearResults `{Runtime} (v : View) (h : Hook)
  : View * (Hook * list Effect) :=
  (setHasData false (setIsTypewriterActive false (setTypewriterData ∅ v)),
   reset h).

(** When the three buttons are offered: the start button is enabled, the
    stop button is rendered, the clear button is rendered. *)
Definition can_start (s : StreamingState) : bool := negb (isStreaming s).
Definition can_stop (s : StreamingState) : bool := isStreaming s.
Definition can_clear (s : StreamingState) (v : View) : bool :=
  hasData v && negb (isStreaming s).

End Generator.

(** * The typewriter

    [TypewriterText] (src/components/TypewriterText.tsx), which the two
    generators render for each text of the result. *)

Module Typewriter.

(** [s.split(sep)] for a separator of one character, and [l.join(sep)]. *)
Fixpoint split_at (sep : ascii) (s : string) : list string :=
  match s with
  | EmptyString => [EmptyString]
  | String c s' =>
      if bool_decide (c = sep) then EmptyString :: split_at sep s'
      else match split_at sep s' with
           | w :: ws => String c w :: ws
           | [] => [String c EmptyString]
           end
  end.

Fixpoint join (sep : string) (l : list string) : string :=
  match l with
  | [] => EmptyString
  | w :: l' =>
      match l' with
      | [] => w
      | _ :: _ => w +:+ sep +:+ join sep l'
      end
  end.

(** [TypewriterTextProps], without [className]. [onComplete] is the identity
    of the callback, when one is given: the effect depends on it. *)
Record Props : Type := {
  text : string;
  speed : nat;
  onComplete : option nat;
  isActive : bool;
}.

(** A timeout set by the effect: its id, and what its callback closes over,
    the words and the [currentWordIndex] of the render. *)
Record Timer : Type := {
  timer_id : nat;
  timer_words : list string;
  timer_index : nat;
}.

(** The dependencies of the effect:
    [[currentWordIndex, text, speed, isActive, onComplete]]. *)
Definition Deps : Type := (nat * string * nat * bool * option nat)%type.

(** A mounted component: its props, its two pieces of state, its two refs,
    the timeouts that are set and have not fired, the id the next
    [setTimeout] returns (ids are not zero), the dependencies of the last
    run of the effect and whether that run returned its cleanup. *)
Record Component : Type := {
  props : Props;
  displayedText : string;
  currentWordIndex : nat;
  originalTextRef : string;
  timeoutRef : option nat;
  timers : list Timer;
  next_id : nat;
  effect_deps : option Deps;
  effect_cleanup : bool;
}.

Definition setDisplayedText (s : string) (c : Component) : Component :=
  {| props := props c; displayedText := s;
     currentWordIndex := currentWordIndex c;
     originalTextRef := originalTextRef c; timeoutRef := timeoutRef c;
     timers := timers c; next_id := next_id c;
     effect_deps := effect_deps c; effect_cleanup := effect_cleanup c |}.

Definition setCurrentWordIndex (i : nat) (c : Component) : Component :=
  {| props := props c; displayedText := displayedText c;
     currentWordIndex := i;
     originalTextRef := originalTextRef c; timeoutRef := timeoutRef c;
     timers := timers c; next_id := next_id c;
     effect_deps := effect_deps c; effect_cleanup := effect_cleanup c |}.

Definition set_originalTextRef (s : string) (c : Component) : Component :=
  {| props := props c; displayedText := displayedText c;
     currentWordIndex := currentWordIndex c;
     originalTextRef := s; timeoutRef := timeoutRef c;
     timers := timers c; next_id := next_id c;
     effect_deps := effect_deps c; effect_cleanup := effect_cleanup c |}.

(** [timeoutRef.current = window.setTimeout(callback, speed)] *)
Definition setTimeout (words : list string) (i : nat) (c : Component) : Component :=
  {| props := props c; displayedText := displayedText c;
     currentWordIndex := currentWordIndex c;
     originalTextRef := originalTextRef c; timeoutRef := Some (next_id c);
     timers := timers c ++ [ {| timer_id := next_id c; timer_words := words;
                                timer_index := i |} ];
     next_id := S (next_id c);
     effect_deps := effect_deps c; effect_cleanup := effect_cleanup c |}.

(** [clearTimeout(id)] *)
Definition clearTimeout (id : nat) (c : Component) : Component :=
  {| props := props c; displayedText := displayedText c;
     currentWordIndex := currentWordIndex c;
     originalTextRef := originalTextRef c; timeoutRef := timeoutRef c;
     timers := filter (λ t, timer_id t ≠ id) (timers c);
     next_id := next_id c;
     effect_deps := effect_deps c; effect_cleanup := effect_cleanup c |}.

Definition set_effect (deps : Deps) (cleanup : bool) (c : Component) : Component :=
  {| props := props c; displayedText := displayedText c;
     currentWordIndex := currentWordIndex c;
     originalTextRef := originalTextRef c; timeoutRef := timeoutRef c;
     timers := timers c; next_id := next_id c;
     effect_deps := Some deps; effect_cleanup := cleanup |}.

Definition set_props (p : Props) (c : Component) : Component :=
  {| props := p; displayedText := displayedText c;
     currentWordIndex := currentWordIndex c;
     originalTextRef := originalTextRef c; timeoutRef := timeoutRef c;
     timers := timers c; next_id := next_id c;
     effect_deps := effect_deps c; effect_cleanup := effect_cleanup c |}.

(** What the component does to the outside: it calls [onComplete]. *)
Inductive Event : Type := completed (callback : nat).

(** The cleanup the effect returns:
    [if (timeoutRef.current) clearTimeout(timeoutRef.current)]. *)
Definition cleanup (c : Component) : Component :=
  match timeoutRef c with
  | Some id => clearTimeout id c
  | None => c
  end.

(** The body of the effect, for a render with props [p] and word index
    [i0]: the setters apply in program order, and the conditions read [i0].
    It yields whether it returned its cleanup. *)
Definition effect (p : Props) (i0 : nat) (c : Component)
  : Component * bool * list Event :=
  if bool_decide (text p = "") then
    (set_originalTextRef "" (setCurrentWordIndex 0 (setDisplayedText "" c)),
     false, [])
  else
    let words := split_at " " (text p) in
    if negb (isActive p) then
      (set_originalTextRef (text p)
         (setCurrentWordIndex (List.length words) (setDisplayedText (text p) c)),
       false, [])
    else
      let c1 :=
        if bool_decide (originalTextRef c = "")
           || negb (startsWith (text p) (originalTextRef c))
        then set_originalTextRef (text p)
               (setCurrentWordIndex 0 (setDisplayedText "" c))
        else c in
      let c2 :=
        if List.length words <? i0
        then setDisplayedText "" (setCurrentWordIndex 0 c1)
        else c1 in
      if i0 <? List.length words then (setTimeout words i0 c2, true, [])
      else
        match onComplete p with
        | Some callback =>
            if isActive p then (c2, true, [completed callback])
            else (c2, true, [])
        | None => (c2, true, [])
        end.

Definition deps_of (p : Props) (i : nat) : Deps :=
  (i, text p, speed p, isActive p, onComplete p).

(** A render with the props and the state of [c]. The effect runs when it
    has not run yet or a dependency differs from those of its last run,
    after the cleanup of that run if it returned one. When the effect has
    changed the word index, the component renders again. [n] bounds the
    renders. *)
Fixpoint render (n : nat) (c : Component) : Component * list Event :=
  match n with
  | O => (c, [])
  | S n' =>
      let deps := deps_of (props c) (currentWordIndex c) in
      if bool_decide (effect_deps c = Some deps) then (c, [])
      else
        let c0 := if effect_cleanup c then cleanup c else c in
        let '(c1, returned, e1) := effect (props c) (currentWordIndex c) c0 in
        let '(c2, e2) := render n' (set_effect deps returned c1) in
        (c2, e1 ++ e2)
  end.

(** Renders enough for every case: the effect is due at most twice in a
    row. *)
Definition renders : nat := 3.

(** The component as mounted with props [p], before its first effect. *)
Definition fresh (p : Props) : Component :=
  {| props := p; displayedText := ""; currentWordIndex := 0;
     originalTextRef := ""; timeoutRef := None; timers := []; next_id := 1;
     effect_deps := None; effect_cleanup := false |}.

Definition mount (p : Props) : Component * list Event :=
  render renders (fresh p).

(** The parent renders the component with new props. *)
Definition update (p : Props) (c : Component) : Component * list Event :=
  render renders (set_props p c).

(** The callback of a timeout:
    [setDisplayedText(words.slice(0, currentWordIndex + 1).join(" "));
     setCurrentWordIndex(prev => prev + 1)]. *)
Definition fire (t : Timer) (c : Component) : Component :=
  setCurrentWordIndex (S (currentWordIndex c))
    (setDisplayedText (join " " (take (S (timer_index t)) (timer_words t))) c).

(** The timeout [id] expires: it leaves the table, its callback runs, and
    the component renders. An id that is not set does nothing. *)
Definition timeout (id : nat) (c : Component) : Component * list Event :=
  match list_find (λ t, timer_id t = id) (timers c) with
  | Some (_, t) => render renders (fire t (clearTimeout id c))
  | None => (c, [])
  end.

(** The oldest timeout expires, if there is one. *)
Definition tick (c : Component) : Component * list Event :=
  match timers c with
  | t :: _ => timeout (timer_id t) c
  | [] => (c, [])
  end.

Fixpoint ticks (n : nat) (c : Component) : Component * list Event :=
  match n with
  | O => (c, [])
  | S n' =>
      let '(c1, e1) := tick c in
      let '(c2, e2) := ticks n' c1 in
      (c2, e1 ++ e2)
  end.

(** What happens to a mounted component. *)
Inductive Input : Type :=
  | new_props (p : Props)
  | expires (id : nat).

Definition step (c : Component) (inp : Input) : Component * list Event :=
  match inp with
  | new_props p => update p c
  | expires id => timeout id c
  end.

Fixpoint run (c : Component) (inputs : list Input) : Component * list Event :=
  match inputs with
  | [] => (c, [])
  | inp :: inputs' =>
      let '(c1, e1) := step c inp in
      let '(c2, e2) := run c1 inputs' in
      (c2, e1 ++ e2)
  end.

(** The words of a text. *)
Definition words_of (s : string) : list string := split_at " " s.

End Typewriter.

(** No effect run is due: the dependencies are those of the last run. *)
Definition settled_component (c : Typewriter.Component) : Prop :=
  Typewriter.effect_deps c
  = Some (Typewriter.deps_of (Typewriter.props c) (Typewriter.currentWordIndex c)).

(** The calls of [onComplete] at the end of a text. *)
Definition completion (p : Typewriter.Props) : list Typewriter.Event :=
  match Typewriter.onComplete p with
  | Some callback => [Typewriter.completed callback]
  | None => []
  end.

(** Props for a text that is typed out. *)
Definition typing (p : Typewriter.Props) : Prop :=
  Typewriter.text p ≠ "" ∧ Typewriter.isActive p = true.

(** The same props with another text. *)
Definition with_text (p : Typewriter.Props) (s : string) : Typewriter.Props :=
  {| Typewriter.text := s; Typewriter.speed := Typewriter.speed p;
     Typewriter.onComplete := Typewriter.onComplete p;
     Typewriter.isActive := Typewriter.isActive p |}.

(** The same props with the typewriter switched off. *)
Definition switched_off (p : Typewriter.Props) : Typewriter.Props :=
  {| Typewriter.text := Typewriter.text p; Typewriter.speed := Typewriter.speed p;
     Typewriter.onComplete := Typewriter.onComplete p;
     Typewriter.isActive := false |}.

(** Example props: a description of three words, no callback; and the same
    with a callback. *)
Definition story : Typewriter.Props :=
  {| Typewriter.text := "As a user"; Typewriter.speed := 150;
     Typewriter.onComplete := None; Typewriter.isActive := true |}.

Definition story_with_callback : Typewriter.Props :=
  {| Typewriter.text := "As a user"; Typewriter.speed := 150;
     Typewriter.onComplete := Some 7; Typewriter.isActive := true |}.

(** The condition on which the effect starts a text over. *)
Definition starts_over (p : Typewriter.Props) (c : Typewriter.Component) : bool :=
  bool_decide (Typewriter.originalTextRef c = "")
  || negb (startsWith (Typewriter.text p) (Typewriter.originalTextRef c)).

(** The word index and the reference text after a run of the effect. *)
Definition index_after (p : Typewriter.Props) (i0 : nat)
    (c : Typewriter.Component) : nat :=
  if bool_decide (Typewriter.text p = "") then 0
  else if negb (Typewriter.isActive p)
  then List.length (Typewriter.words_of (Typewriter.text p))
  else if starts_over p c
          || (List.length (Typewriter.words_of (Typewriter.text p)) <? i0)
  then 0
  else Typewriter.currentWordIndex c.

Definition reference_after (p : Typewriter.Props) (c : Typewriter.Component)
  : string :=
  if bool_decide (Typewriter.text p = "") then ""
  else if negb (Typewriter.isActive p) then Typewriter.text p
  else if starts_over p c then Typewriter.text p
  else Typewriter.originalTextRef c.

(** At most one timeout is set, and then the ref holds its id and the last
    run of the effect returned its cleanup. *)
Definition one_timer (c : Typewriter.Component) : Prop :=
  Typewriter.timers c = []
  ∨ ∃ t, Typewriter.timers c = [t]
         ∧ Typewriter.timeoutRef c = Some (Typewriter.timer_id t)
         ∧ Typewriter.effect_cleanup c = true.

(** One run of the effect, as [Typewriter.render] does it: the component
    before the next render. *)
Definition after_effect (c : Typewriter.Component) : Typewriter.Component :=
  let c0 := if Typewriter.effect_cleanup c then Typewriter.cleanup c else c in
  Typewriter.set_effect
    (Typewriter.deps_of (Typewriter.props c) (Typewriter.currentWordIndex c))
    (Typewriter.effect (Typewriter.props c) (Typewriter.currentWordIndex c) c0).1.2
    (Typewriter.effect (Typewriter.props c) (Typewriter.currentWordIndex c) c0).1.1.

(** The timeout that types word [k] of the text of [p]. *)
Definition word_timer (p : Typewriter.Props) (id k : nat) : Typewriter.Timer :=
  {| Typewriter.timer_id := id;
     Typewriter.timer_words := Typewriter.words_of (Typewriter.text p);
     Typewriter.timer_index := k |}.

(** The component types the text of [p] and stands before word [k]: no
    effect run is due, the text continues the reference text, and the
    timeout for word [k] is set, unless all words are typed. *)
Definition awaiting (p : Typewriter.Props) (k : nat) (c : Typewriter.Component)
  : Prop :=
  Typewriter.props c = p
  ∧ Typewriter.currentWordIndex c = k
  ∧ starts_over p c = false
  ∧ settled_component c
  ∧ one_timer c
  ∧ (if k <? List.length (Typewriter.words_of (Typewriter.text p))
     then ∃ id, Typewriter.timers c = [word_timer p id k]
     else Typewriter.timers c = []).

(** The component as the effect leaves it when it starts a text over. *)
Definition started_over (p : Typewriter.Props) (c : Typewriter.Component)
  : Typewriter.Component :=
  Typewriter.set_originalTextRef (Typewriter.text p)
    (Typewriter.setCurrentWordIndex 0 (Typewriter.setDisplayedText "" c)).

(** The component before its effect runs: after the cleanup of the last
    run, if that run returned one. *)
Definition cleaned (c : Typewriter.Component) : Typewriter.Component :=
  if Typewriter.effect_cleanup c then Typewriter.cleanup c else c.

(** The component after the mount with [p] and [k] timeouts. *)
Definition typed (p : Typewriter.Props) (k : nat) : Typewriter.Component :=
  (Typewriter.ticks k (Typewriter.mount p).1).1.

(** The number of words of a text. *)
Definition word_count (s : string) : nat :=
  List.length (Typewriter.words_of s).

(** ** Properties of line processing *)

Section LineProperties.
Context `{Runtime}.

Lemma complete_eq (st : StreamingState) :
  complete st = (tt, completed_state st, [onStatusChange Completed; onComplete]).
Proof. reflexivity. Qed.

Lemma trimEnd_nonempty (c : ascii) (s : string) :
  is_white_space c = false → trimEnd (String c s) ≠ "".
Proof.
  intros Hc. simpl. destruct (trimEnd s); [rewrite Hc|]; discriminate.
Qed.

Lemma startsWith_data_not_blank (l : string) :
  startsWith l "data: " = true → trim l ≠ "".
Proof.
  destruct l as [|c l]; simpl; [discriminate|].
  rewrite andb_true_iff, bool_decide_eq_true. intros [<- _].
  unfold trim. simpl trimStart. by apply trimEnd_nonempty.
Qed.

Lemma processLine_record (l : string) (st : StreamingState) :
  startsWith l "data: " = true →
  processLine l st =
    if bool_decide (trim (slice l 6) = "[DONE]")
    then (Return, completed_state st, [onStatusChange Completed; onComplete])
    else processRecord (trim (slice l 6)) st.
Proof.
  intros Hp. unfold processLine.
  rewrite bool_decide_eq_false_2 by by apply startsWith_data_not_blank.
  rewrite Hp. by case_bool_decide.
Qed.

Lemma processLine_done (l : string) (st : StreamingState) :
  is_done_line l = true →
  processLine l st =
    (Return, completed_state st, [onStatusChange Completed; onComplete]).
Proof.
  unfold is_done_line. rewrite andb_true_iff. intros [Hp Hd].
  by rewrite processLine_record, Hd.
Qed.

Lemma forLines_cons (l : string) (ls : list string) (st : StreamingState) :
  forLines (l :: ls) st =
    let '(flow, st1, e1) := processLine l st in
    match flow with
    | Return => (Return, st1, e1)
    | Next => let '(flow2, st2, e2) := forLines ls st1 in (flow2, st2, e1 ++ e2)
    end.
Proof.
  simpl. unfold mbind, M_bind, mret, M_ret.
  destruct (processLine l st) as [[[] st1] e1]; [done|].
  by rewrite app_nil_r.
Qed.

Lemma forLines_app (pre post : list string) (st : StreamingState) :
  forLines (pre ++ post) st =
    let '(flow, st1, e1) := forLines pre st in
    match flow with
    | Return => (Return, st1, e1)
    | Next => let '(flow2, st2, e2) := forLines post st1 in (flow2, st2, e1 ++ e2)
    end.
Proof.
  revert st. induction pre as [|l pre IH]; intros st.
  - simpl. by destruct (forLines post st) as [[? ?] ?].
  - rewrite <- app_comm_cons, !forLines_cons.
    destruct (processLine l st) as [[[] st1] e1]; [|done].
    rewrite IH. destruct (forLines pre st1) as [[[] st2] e2].
    + destruct (forLines post st2) as [[? ?] ?]. by rewrite app_assoc.
    + done.
Qed.

(** Whatever comes after a terminator line is not looked at. *)
Lemma forLines_done_cut (pre post : list string) (l : string) (st : StreamingState) :
  is_done_line l = true →
  forLines (pre ++ l :: post) st = forLines (pre ++ [l]) st.
Proof.
  intros Hd. rewrite !forLines_app.
  destruct (forLines pre st) as [[[] st1] e1]; [|done].
  by rewrite !forLines_cons, !processLine_done.
Qed.

Lemma processRecord_return (jsonStr : string) (st st' : StreamingState) e :
  processRecord jsonStr st = (Return, st', e) →
  connectionStatus st' = Completed ∧ isStreaming st' = false.
Proof.
  unfold processRecord. destruct (JSON_parse jsonStr) as [v|]; [|done].
  unfold_M.
  destruct (truthy v && typeof_object v); simpl;
    destruct (get v "type") as [t|]; try done;
    destruct (strict_equals t "object"); try done;
    destruct (strict_equals t "finish"); try done;
    by intros [= <- <-].
Qed.

Lemma processLine_return (l : string) (st st' : StreamingState) e :
  processLine l st = (Return, st', e) →
  connectionStatus st' = Completed ∧ isStreaming st' = false.
Proof.
  unfold processLine. case_bool_decide; [done|].
  destruct (startsWith l "data: "); [|done].
  case_bool_decide; [by intros [= <- <-]|].
  apply processRecord_return.
Qed.

(** [processStream] returns from inside the loop only after [complete]. *)
Lemma forLines_return (ls : list string) (st st' : StreamingState) e :
  forLines ls st = (Return, st', e) →
  connectionStatus st' = Completed ∧ isStreaming st' = false.
Proof.
  revert st e. induction ls as [|l ls IH]; intros st e; [done|].
  rewrite forLines_cons.
  destruct (processLine l st) as [[[] st1] e1] eqn:Hl.
  - destruct (forLines ls st1) as [[f2 st2] e2] eqn:Hls.
    intros [= -> <- <-]. by eapply IH.
  - intros [= <- <-]. by eapply processLine_return.
Qed.

Lemma forLines_with_done (ls : list string) (l : string) (st : StreamingState) :
  l ∈ ls → is_done_line l = true → (forLines ls st).1.1 = Return.
Proof.
  intros Hin Hd. revert st. induction Hin as [l ls|l l' ls Hin IH]; intros st.
  - by rewrite forLines_cons, processLine_done.
  - rewrite forLines_cons.
    destruct (processLine l' st) as [[[] st1] e1]; [|done].
    specialize (IH Hd st1). by destruct (forLines ls st1) as [[? ?] ?].
Qed.

End LineProperties.

(** ** The terminator *)

Section Terminator.
Context `{Runtime}.
Variable options : StreamingOptions.

Lemma step_settled (h : Hook) (i : nat) (c : Call) (inp : Input) :
  calls h !! i = Some c → phase c = settled → settles_call i inp →
  step options h inp = (h, []).
Proof.
  intros Hc Hp Hi. destruct inp; simpl in Hi; try done; subst; simpl;
    by rewrite Hc, Hp.
Qed.

Lemma run_settled (h : Hook) (i : nat) (c : Call) (inputs : list Input) :
  calls h !! i = Some c → phase c = settled → Forall (settles_call i) inputs →
  run options h inputs = (h, []).
Proof.
  intros Hc Hp. induction 1 as [|inp inputs Hi _ IH]; [done|].
  simpl. by rewrite (step_settled h i c inp), IH.
Qed.

(** C4. When a chunk holds a line [data: [DONE]], the invocation that reads
    it ends with status [completed] and [isStreaming] cleared; the state and
    the observer calls are those of the lines up to and including the
    terminator, so no line after it is processed; and the invocation has
    returned, so no later settlement for it, chunk or end of stream, changes
    anything. *)
Theorem done_sentinel_terminates (h : Hook) (i : nat) (c : Call)
    (decoder : TextDecoder) (value : Uint8Array) (pre post : list string)
    (l : string) :
  calls h !! i = Some c →
  phase c = await_read decoder →
  split_lines (decode decoder value).1 = pre ++ l :: post →
  is_done_line l = true →
  let out := step options h (read_settled i (read_value value)) in
  connectionStatus (state out.1) = Completed
  ∧ isStreaming (state out.1) = false
  ∧ calls out.1 !! i = Some {| aborted := aborted c; phase := settled |}
  ∧ (state out.1, out.2) =
      ((forLines (pre ++ [l]) (state h)).1.2, (forLines (pre ++ [l]) (state h)).2)
  ∧ ∀ inputs, Forall (settles_call i) inputs →
      run options out.1 inputs = (out.1, []).
Proof.
  intros Hc Hp Hsplit Hd out.
  assert (Hret : (forLines (pre ++ [l]) (state h)).1.1 = Return).
  { apply forLines_with_done with l; [set_solver|done]. }
  assert (Hout : out =
    ({| state := (forLines (pre ++ [l]) (state h)).1.2;
        abortControllerRef := abortControllerRef h;
        calls := <[ i := {| aborted := aborted c; phase := settled |} ]> (calls h) |},
     (forLines (pre ++ [l]) (state h)).2)).
  { subst out. simpl. rewrite Hc, Hp. unfold resume, processStream.
    destruct (decode decoder value) as [chunk decoder'] eqn:Hdec.
    simpl in Hsplit. rewrite Hsplit. unfold mbind, M_bind, mret, M_ret.
    rewrite forLines_done_cut by done.
    destruct (forLines (pre ++ [l]) (state h)) as [[flow st'] e].
    simpl in Hret. subst flow. simpl. by rewrite app_nil_r. }
  assert (Hi : calls out.1 !! i = Some {| aborted := aborted c; phase := settled |}).
  { rewrite Hout. simpl. apply list_lookup_insert_eq.
    by eapply lookup_lt_Some. }
  destruct (forLines (pre ++ [l]) (state h)) as [[flow st'] e] eqn:Hfl.
  simpl in Hret. subst flow. apply forLines_return in Hfl as [Hst Hs].
  rewrite Hout in *. simpl in *. split_and!; try done.
  intros inputs Hin. by eapply run_settled.
Qed.

End Terminator.

(** A mounted hook reading a stream, and a chunk with two records around the
    terminator. *)
Lemma done_sentinel_terminates_witness :
  let value :=
    Browser.line (Browser.dq "data: {'a':1}") +:+ Browser.line "data: [DONE]"
    +:+ Browser.line (Browser.dq "data: {'b':2}") in
  let out := step Browser.options Browser.reading
               (read_settled 0 (read_value value)) in
  connectionStatus (state out.1) = Completed
  ∧ data (state out.1) !! "a" = Some (JNumber "1")
  ∧ data (state out.1) !! "b" = None.
Proof.
  intros value out.
  destruct (done_sentinel_terminates Browser.options Browser.reading 0
    {| aborted := false; phase := await_read new_TextDecoder |}
    new_TextDecoder value
    [Browser.dq "data: {'a':1}"] [Browser.dq "data: {'b':2}"; ""] "data: [DONE]"
    eq_refl eq_refl eq_refl eq_refl) as (Hs & _ & _ & _ & _).
  split; [exact Hs|]. split; vm_compute; reflexivity.
Defined.

(** ** Records *)

Section Records.
Context `{Runtime}.
Variable options : StreamingOptions.

Lemma processStream_value (decoder : TextDecoder) (value : Uint8Array)
    (st : StreamingState) :
  processStream decoder (read_value value) st =
    let '(flow, st', e) := forLines (split_lines (decode decoder value).1) st in
    (match flow with
     | Return => settled
     | Next => await_read (decode decoder value).2
     end, st', e).
Proof.
  unfold processStream. destruct (decode decoder value) as [chunk decoder'].
  unfold mbind, M_bind, mret, M_ret. simpl.
  destruct (forLines (split_lines chunk) st) as [[[] st'] e];
    by rewrite app_nil_r.
Qed.

Lemma processRecord_malformed (jsonStr : string) (st : StreamingState) :
  JSON_parse jsonStr = None →
  processRecord jsonStr st = (Next, st, [console_warn jsonStr]).
Proof. intros Hp. unfold processRecord. by rewrite Hp. Qed.

Lemma processLine_malformed (l : string) (st : StreamingState) :
  startsWith l "data: " = true →
  trim (slice l 6) ≠ "[DONE]" →
  JSON_parse (trim (slice l 6)) = None →
  processLine l st = (Next, st, [console_warn (trim (slice l 6))]).
Proof.
  intros Hp Hd Hj. rewrite processLine_record by done.
  rewrite bool_decide_eq_false_2 by done. by apply processRecord_malformed.
Qed.

Lemma forLines_malformed (pre post : list string) (l : string)
    (st : StreamingState) :
  startsWith l "data: " = true →
  trim (slice l 6) ≠ "[DONE]" →
  JSON_parse (trim (slice l 6)) = None →
  (forLines (pre ++ l :: post) st).1 = (forLines (pre ++ post) st).1
  ∧ filter is_observer_call (forLines (pre ++ l :: post) st).2
    = filter is_observer_call (forLines (pre ++ post) st).2.
Proof.
  intros Hp Hd Hj. rewrite !forLines_app.
  destruct (forLines pre st) as [[[] st1] e1]; [|done].
  rewrite forLines_cons, processLine_malformed by done.
  destruct (forLines post st1) as [[flow st2] e2]. simpl.
  split; [done|]. by rewrite !filter_app.
Qed.

(** C6. A line [data: ...] whose text [JSON.parse] refuses leaves the whole
    state as it is (status, result, error, streaming flag), lets the loop go
    on and calls nothing but [console.warn]. A chunk that holds such a line
    leaves the hook, and the observers, exactly as the same chunk without
    the line does: the lines before and after it merge as usual, and the
    invocation goes on reading unless one of those lines is a terminator. *)
Theorem malformed_record_is_skipped (l : string) (pre post : list string)
    (h : Hook) (i : nat) (c : Call) (decoder : TextDecoder)
    (value : Uint8Array) :
  startsWith l "data: " = true →
  trim (slice l 6) ≠ "[DONE]" →
  JSON_parse (trim (slice l 6)) = None →
  calls h !! i = Some c →
  phase c = await_read decoder →
  split_lines (decode decoder value).1 = pre ++ l :: post →
  (∀ st, processLine l st = (Next, st, [console_warn (trim (slice l 6))]))
  ∧ let out := step options h (read_settled i (read_value value)) in
    let without :=
      resume h i c
        (flow ← forLines (pre ++ post);
         mret (match flow with
               | Return => settled
               | Next => await_read (decode decoder value).2
               end)) in
    out.1 = without.1
    ∧ filter is_observer_call out.2 = filter is_observer_call without.2.
Proof.
  intros Hp Hd Hj Hc Hph Hsplit. split.
  { intros st. by apply processLine_malformed. }
  intros out without. subst out without. unfold step.
  rewrite Hc, Hph. unfold resume.
  rewrite processStream_value, Hsplit.
  destruct (forLines_malformed pre post l (state h) Hp Hd Hj) as [Hst Heff].
  unfold mbind, M_bind, mret, M_ret.
  destruct (forLines (pre ++ l :: post) (state h)) as [[f1 s1] e1].
  destruct (forLines (pre ++ post) (state h)) as [[f2 s2] e2].
  simpl in *. injection Hst as -> ->. by rewrite app_nil_r.
Qed.

(** C2, as the code has it. For a record whose parsed value has [type]
    equal to "object", the outer object is merged into the accumulated
    result and the data observer is called with it; then its [object]
    payload is merged over that, and the data observer is called with the
    payload. *)
Theorem partial_object_merges_outer_then_nested (jsonStr : string)
    (v type : JSValue) (st : StreamingState) :
  JSON_parse jsonStr = Some v →
  get v "type" = Some type →
  strict_equals type "object" = true →
  let object := default JUndefined (get v "object") in
  processRecord jsonStr st =
    (Next, merge_data object (merge_data v st), [onData v; onData object])
  ∧ data (merge_data object (merge_data v st))
    = spread (spread (data st) v) object.
Proof.
  intros Hp Ht Hs object. split; [|done].
  unfold processRecord. rewrite Hp, Ht, Hs.
  destruct v; simpl in Ht; try done;
    try (injection Ht as <-; discriminate Hs).
Qed.

End Records.

Lemma malformed_record_is_skipped_witness :
  let l := "data: {bad json" in
  let value := Browser.line (Browser.dq "data: {'a':1}") +:+ Browser.line l
               +:+ Browser.line (Browser.dq "data: {'b':2}") in
  let out := step Browser.options Browser.reading
               (read_settled 0 (read_value value)) in
  connectionStatus (state out.1) = Connected
  ∧ data (state out.1) = {[ "a" := JNumber "1"; "b" := JNumber "2" ]}
  ∧ error (state out.1) = None.
Proof.
  intros l value out.
  destruct (malformed_record_is_skipped (H := Browser.runtime) Browser.options
    l [Browser.dq "data: {'a':1}"] [Browser.dq "data: {'b':2}"; ""]
    Browser.reading 0
    {| aborted := false; phase := await_read new_TextDecoder |}
    new_TextDecoder value
    eq_refl ltac:(vm_compute; discriminate) eq_refl eq_refl eq_refl eq_refl)
    as (_ & Hst & _).
  subst out. rewrite Hst. split_and!; vm_compute; reflexivity.
Defined.

Lemma partial_object_merges_outer_then_nested_witness :
  let jsonStr := Browser.dq "{'type':'object','object':{'a':1}}" in
  ∃ st, (processRecord jsonStr (state Browser.reading)).1 = (Next, st)
        ∧ data st !! "a" = Some (JNumber "1")
        ∧ data st !! "type" = Some (JString "object").
Proof.
  intros jsonStr.
  destruct (partial_object_merges_outer_then_nested (H := Browser.runtime) jsonStr
    (JObject [("type", JString "object"); ("object", JObject [("a", JNumber "1")])])
    (JString "object") (state Browser.reading) eq_refl eq_refl eq_refl)
    as [Hrec _].
  eexists. rewrite Hrec. split; [reflexivity|]. split; vm_compute; reflexivity.
Defined.

(** C2, as stated, fails on a record of type "object": the outer object is
    merged too, and the observer is called twice. *)
Lemma nested_merged_instead_of_outer_fails :
  ¬ nested_merged_instead_of_outer (H := Browser.runtime) (Browser.dq "{'type':'object','object':{'a':1}}").
Proof.
  intros Hclaim.
  specialize (Hclaim
    [("type", JString "object"); ("object", JObject [("a", JNumber "1")])]
    [("a", JNumber "1")] (state Browser.reading) eq_refl eq_refl eq_refl).
  apply (f_equal (λ out, List.length out.2)) in Hclaim.
  vm_compute in Hclaim. discriminate Hclaim.
Qed.

(** ** Sessions from their start *)

Section Sessions.
Context `{Runtime}.
Variable options : StreamingOptions.

Lemma startStreaming_fresh (rendered : StreamingState) (h : Hook) :
  isStreaming rendered = false →
  startStreaming options rendered h =
    ({| state := {| data := ∅; isStreaming := true; error := None;
                    connectionStatus := Connecting |};
        abortControllerRef := Some (List.length (calls h));
        calls := calls h ++ [fetching] |},
     [onStatusChange Connecting;
      fetch (url options) (requestOptions options (List.length (calls h)))]).
Proof. intros Hs. unfold startStreaming. by rewrite Hs. Qed.

Lemma lookup_fresh_call (l : list Call) (c : Call) :
  (l ++ [c]) !! List.length l = Some c.
Proof. by rewrite lookup_app_r, Nat.sub_diag. Qed.

Lemma insert_fresh_call (l : list Call) (c c' : Call) :
  <[ List.length l := c' ]> (l ++ [c]) = l ++ [c'].
Proof. by rewrite insert_app_r_alt, Nat.sub_diag. Qed.

Lemma startStreaming_catch_new_Error (msg : string) (st : StreamingState) :
  startStreaming_catch (new_Error msg) st =
    (tt,
     {| data := data st; isStreaming := false;
        error := Some ("Failed to start streaming: " +:+ msg);
        connectionStatus := Error |},
     [console_error (new_Error msg); onStatusChange Error;
      onError ("Failed to start streaming: " +:+ msg)]).
Proof. reflexivity. Qed.

Lemma forLines_finish_chunk (st : StreamingState) :
  JSON_parse finish_text = Some finish_record →
  forLines (split_lines finish_chunk) st =
    (Return, completed_state (merge_data finish_record st),
     [onData finish_record; onStatusChange Completed; onComplete]).
Proof.
  intros Hp.
  change (split_lines finish_chunk) with ["data: " +:+ finish_text; ""].
  rewrite forLines_cons, processLine_record by done.
  change (trim (slice ("data: " +:+ finish_text) 6)) with finish_text.
  rewrite bool_decide_eq_false_2 by done.
  unfold processRecord. by rewrite Hp.
Qed.

(** C3, as the code has it. In a fresh session whose first chunk is
    [data: {"type":"finish"}] and a line feed, the status goes from
    connected straight to completed; before that the record itself is
    merged, so the accumulated result is [{type: "finish"}], and the data
    observer is called once, with the record. *)
Theorem finish_chunk_completes_after_merge (h : Hook) (r : Response)
    (value : Uint8Array) :
  isStreaming (state h) = false →
  ok r = true → has_body r = true →
  (decode new_TextDecoder value).1 = finish_chunk →
  JSON_parse finish_text = Some finish_record →
  let out := finish_scenario options h r value in
  state out.1 = {| data := {[ "type" := JString "finish" ]};
                   isStreaming := false; error := None;
                   connectionStatus := Completed |}
  ∧ out.2 = [onStatusChange Connecting;
             fetch (url options) (requestOptions options (List.length (calls h)));
             onStatusChange Connected;
             onData finish_record;
             onStatusChange Completed; onComplete]
  ∧ calls out.1 !! List.length (calls h)
    = Some {| aborted := false; phase := settled |}.
Proof.
  intros Hs Hok Hbody Hdec Hp out. subst out.
  unfold finish_scenario, run, step.
  rewrite startStreaming_fresh by done. cbn [calls state abortControllerRef].
  rewrite lookup_fresh_call. cbn [phase fetching].
  unfold resume, startStreaming_fetched. rewrite Hok, Hbody.
  cbn [negb calls state abortControllerRef aborted fetching].
  unfold_M. cbn [calls state abortControllerRef].
  rewrite !insert_fresh_call, lookup_fresh_call. cbn [phase aborted].
  rewrite processStream_value, Hdec, forLines_finish_chunk by done.
  rewrite insert_fresh_call. cbn [fst snd calls state app].
  split_and!; [done..|apply lookup_fresh_call].
Qed.

(** C8. When the response of a fresh session has a non-success status or
    no body, the session ends with status [error]; the error message names
    the status of the response, or says that the body is missing; the
    accumulated result is empty and the data observer is never called; the
    error observer gets the same message; and the invocation has returned,
    so nothing is merged later either. *)
Theorem rejected_response_is_an_error (h : Hook) (r : Response) :
  isStreaming (state h) = false →
  ok r = false ∨ has_body r = false →
  let out := rejected_scenario options h r in
  connectionStatus (state out.1) = Error
  ∧ error (state out.1) = Some (rejection_message r)
  ∧ isStreaming (state out.1) = false
  ∧ data (state out.1) = ∅
  ∧ filter is_onData out.2 = []
  ∧ filter is_onError out.2 = [onError (rejection_message r)]
  ∧ ∀ inputs, Forall (settles_call (List.length (calls h))) inputs →
      run options out.1 inputs = (out.1, []).
Proof.
  intros Hs Hr out.
  assert (Hout : ∃ e, out =
    ({| state := {| data := ∅; isStreaming := false;
                    error := Some (rejection_message r);
                    connectionStatus := Error |};
        abortControllerRef := Some (List.length (calls h));
        calls := calls h ++ [ {| aborted := false; phase := settled |} ] |},
     [onStatusChange Connecting;
      fetch (url options) (requestOptions options (List.length (calls h)));
      console_error e; onStatusChange Error; onError (rejection_message r)])).
  { subst out. unfold rejected_scenario, run, step.
    rewrite startStreaming_fresh by done. cbn [calls state abortControllerRef].
    rewrite lookup_fresh_call. cbn [phase fetching].
    unfold resume, startStreaming_fetched, rejection_message.
    destruct (ok r) eqn:Hok; cbn [negb].
    - destruct Hr as [?|Hb]; [done|]. rewrite Hb. cbn [negb].
      eexists. unfold mbind, M_bind, mret, M_ret.
      rewrite startStreaming_catch_new_Error. lazy beta iota zeta.
      cbn [calls state abortControllerRef aborted fetching].
      by rewrite insert_fresh_call.
    - eexists. unfold mbind, M_bind, mret, M_ret.
      rewrite startStreaming_catch_new_Error. lazy beta iota zeta.
      cbn [calls state abortControllerRef aborted fetching].
      by rewrite insert_fresh_call. }
  destruct Hout as [e ->]. cbn [fst snd state connectionStatus error
    isStreaming data]. split_and!; try done.
  intros inputs Hin.
  eapply run_settled; [apply lookup_fresh_call|done|done].
Qed.

(** C10. [stopStreaming] on an idle hook with no session is not a no-op:
    the status becomes [stopped], the status observer is called with
    "stopped", and nothing else is touched. *)
Theorem stop_when_idle_sets_stopped (h : Hook) :
  connectionStatus (state h) = Idle →
  isStreaming (state h) = false →
  let out := step options h call_stopStreaming in
  state out.1 = {| data := data (state h); isStreaming := false;
                   error := error (state h); connectionStatus := Stopped |}
  ∧ out.2 = [onStatusChange Stopped]
  ∧ out.1 ≠ h.
Proof.
  intros Hi Hs. simpl. split_and!; [done..|].
  intros Heq. apply (f_equal (λ x, connectionStatus (state x))) in Heq.
  simpl in Heq. congruence.
Qed.

End Sessions.

Lemma finish_chunk_completes_after_merge_witness :
  let out := finish_scenario Browser.options initial Browser.OK finish_chunk in
  connectionStatus (state out.1) = Completed
  ∧ data (state out.1) = {[ "type" := JString "finish" ]}.
Proof.
  intros out.
  destruct (finish_chunk_completes_after_merge (H := Browser.runtime)
    Browser.options initial Browser.OK finish_chunk
    eq_refl eq_refl eq_refl eq_refl eq_refl) as (Hst & _ & _).
  subst out. rewrite Hst. split; reflexivity.
Defined.

(** C3, as stated, fails: the scenario ends completed, but the accumulated
    result is not empty. *)
Lemma finish_chunk_no_merge_fails :
  ¬ (let out := finish_scenario Browser.options initial Browser.OK finish_chunk in
     connectionStatus (state out.1) = Completed ∧ data (state out.1) = ∅).
Proof.
  intros [_ Hd]. apply (f_equal (λ m : Obj, m !! "type")) in Hd.
  vm_compute in Hd. discriminate Hd.
Qed.

Lemma rejected_response_is_an_error_witness :
  let r := {| ok := false; status := 500; has_body := true |} in
  let out := rejected_scenario Browser.options initial r in
  connectionStatus (state out.1) = Error
  ∧ error (state out.1)
    = Some "Failed to start streaming: HTTP error! status: 500"
  ∧ data (state out.1) = ∅.
Proof.
  intros r out.
  destruct (rejected_response_is_an_error (H := Browser.runtime)
    Browser.options initial r eq_refl (or_introl eq_refl))
    as (Hst & Herr & _ & Hd & _).
  split; [exact Hst|]. split; [|exact Hd].
  subst out. rewrite Herr. vm_compute. reflexivity.
Defined.

Lemma stop_when_idle_sets_stopped_witness :
  let out := step Browser.options initial call_stopStreaming in
  connectionStatus (state out.1) = Stopped ∧ out.2 = [onStatusChange Stopped].
Proof.
  intros out.
  destruct (stop_when_idle_sets_stopped (H := Browser.runtime)
    Browser.options initial eq_refl eq_refl) as (Hst & He & _).
  subst out. rewrite Hst, He. split; reflexivity.
Defined.

(** ** The invariant *)

Section Invariant.
Context `{Runtime}.
Variable options : StreamingOptions.

Lemma processRecord_next (jsonStr : string) (st st' : StreamingState) e :
  processRecord jsonStr st = (Next, st', e) →
  isStreaming st' = isStreaming st
  ∧ connectionStatus st' = connectionStatus st
  ∧ error st' = error st.
Proof.
  unfold processRecord. destruct (JSON_parse jsonStr) as [v|];
    [|by intros [= <- <-]].
  unfold_M.
  destruct (truthy v && typeof_object v); simpl;
    destruct (get v "type") as [t|]; try (by intros [= <- <-]);
    destruct (strict_equals t "object"); try (by intros [= <- <-]);
    destruct (strict_equals t "finish"); try done;
    by intros [= <- <-].
Qed.

Lemma processLine_next (l : string) (st st' : StreamingState) e :
  processLine l st = (Next, st', e) →
  isStreaming st' = isStreaming st
  ∧ connectionStatus st' = connectionStatus st
  ∧ error st' = error st.
Proof.
  unfold processLine. case_bool_decide; [by intros [= <- <-]|].
  destruct (startsWith l "data: "); [|by intros [= <- <-]].
  case_bool_decide; [done|]. apply processRecord_next.
Qed.

(** A chunk without a terminator touches nothing but the data. *)
Lemma forLines_next (ls : list string) (st st' : StreamingState) e :
  forLines ls st = (Next, st', e) →
  isStreaming st' = isStreaming st
  ∧ connectionStatus st' = connectionStatus st
  ∧ error st' = error st.
Proof.
  revert st e. induction ls as [|l ls IH]; intros st e;
    [by intros [= <- <-]|].
  rewrite forLines_cons.
  destruct (processLine l st) as [[[] st1] e1] eqn:Hl; [|done].
  destruct (forLines ls st1) as [[f2 st2] e2] eqn:Hls.
  intros [= -> <- <-].
  apply processLine_next in Hl as (? & ? & ?).
  apply IH in Hls as (? & ? & ?). split_and!; congruence.
Qed.

Lemma processStream_aborted (decoder : TextDecoder) (err : JSError)
    (st : StreamingState) :
  is_AbortError err = true →
  processStream decoder (read_rejected err) st =
    (settled, stopped_state st, [onStatusChange Stopped]).
Proof.
  intros Ha. unfold processStream, processStream_catch. by rewrite Ha.
Qed.

Lemma startStreaming_fetched_aborted (err : JSError) (st : StreamingState) :
  is_AbortError err = true →
  startStreaming_fetched (fetch_rejected err) st =
    (settled, stopped_state st, [onStatusChange Stopped]).
Proof.
  intros Ha. unfold startStreaming_fetched, startStreaming_catch.
  by rewrite Ha.
Qed.

Lemma processStream_live (decoder : TextDecoder) (r : ReadResult)
    (st : StreamingState) :
  match r with read_rejected err => is_AbortError err = false | _ => True end →
  live_outcome st (processStream decoder r st).
Proof.
  destruct r as [|value|err]; intros Hr.
  - by left.
  - rewrite processStream_value.
    destruct (forLines _ st) as [[[] st'] e] eqn:Hfl.
    + right. apply forLines_next in Hfl as (Hs & _). by split.
    + left. apply forLines_return in Hfl as [Hst Hs]. simpl.
      by rewrite Hst, Hs.
  - left. unfold processStream, processStream_catch. by rewrite Hr.
Qed.

Lemma startStreaming_fetched_live (r : FetchResult) (st : StreamingState) :
  match r with fetch_rejected err => is_AbortError err = false | _ => True end →
  live_outcome st (startStreaming_fetched r st).
Proof.
  destruct r as [response|err]; intros Hr; unfold startStreaming_fetched.
  - destruct (ok response); simpl.
    + destruct (has_body response); simpl; [by right|by left].
    + by left.
  - left. unfold startStreaming_catch. by rewrite Hr.
Qed.

(** What an admissible settlement finds: the invocation that awaits it, and
    an AbortError exactly when its request was aborted. *)
Lemma settles_pending_cases (h : Hook) (inp : Input) :
  settles_pending h inp = true →
  ∃ i c (m : M Phase),
    calls h !! i = Some c ∧ pending c = true
    ∧ step options h inp = resume h i c m
    ∧ if aborted c
      then m (state h) = (settled, stopped_state (state h), [onStatusChange Stopped])
      else live_outcome (state h) (m (state h)).
Proof.
  destruct inp as [rendered| | | |i r|i r]; simpl; try done.
  - destruct (calls h !! i) as [[a ph]|] eqn:Hc; [|done].
    destruct ph as [|decoder|]; try done. intros Hr.
    exists i, {| aborted := a; phase := await_fetch |}, (startStreaming_fetched r).
    split_and!; [done..|]. simpl. destruct a, r as [response|err]; try done.
    + by apply startStreaming_fetched_aborted.
    + by apply startStreaming_fetched_live.
    + apply startStreaming_fetched_live. by apply negb_true_iff.
  - destruct (calls h !! i) as [[a ph]|] eqn:Hc; [|done].
    destruct ph as [|decoder|]; try done. intros Hr.
    exists i, {| aborted := a; phase := await_read decoder |},
      (processStream decoder r).
    split_and!; [done..|]. simpl. destruct a, r as [|value|err]; try done.
    + by apply processStream_aborted.
    + by apply processStream_live.
    + by apply processStream_live.
    + apply processStream_live. by apply negb_true_iff.
Qed.

Lemma invariant_initial : invariant initial.
Proof. by split. Qed.

Lemma lookup_abort (h : Hook) (j : nat) (c : Call) :
  abort h !! j = Some c →
  ∃ c0, calls h !! j = Some c0 ∧ phase c = phase c0
        ∧ (aborted c = false → aborted c0 = false ∧ abortControllerRef h ≠ Some j).
Proof.
  unfold abort. destruct (abortControllerRef h) as [i|] eqn:Hi.
  - destruct (decide (i = j)) as [->|Hne].
    + rewrite list_lookup_alter_eq. destruct (calls h !! j) as [c0|]; [|done].
      simpl. intros [= <-]. exists c0. by split_and!.
    + rewrite list_lookup_alter_ne by done. intros Hj. exists c.
      split_and!; try done. intros Ha. split; [done|congruence].
  - intros Hj. by exists c.
Qed.

Lemma length_abort (h : Hook) : List.length (abort h) = List.length (calls h).
Proof.
  unfold abort. destruct (abortControllerRef h); [|done].
  apply length_alter.
Qed.

(** After [abort()], no invocation is both pending and not aborted. *)
Lemma abort_all_aborted (h : Hook) (st : StreamingState) :
  invariant h →
  all_aborted {| state := st; abortControllerRef := abortControllerRef h;
                 calls := abort h |}.
Proof.
  intros [Href Hlive _] j c Hj Hp. simpl in Hj.
  destruct (aborted c) eqn:Ha; [done|].
  apply lookup_abort in Hj as (c0 & Hj & Hph & Hc0).
  destruct (Hc0 Ha) as [Ha0 Hne].
  destruct (Hlive j c0 Hj) as [Hlast _]; [by unfold pending in *; rewrite <- Hph|done|].
  destruct (abortControllerRef h) as [i|].
  - assert (i = j) by lia. congruence.
  - rewrite Href in Hj. done.
Qed.

Lemma invariant_abort (h : Hook) (st : StreamingState) :
  invariant h →
  (in_progress (connectionStatus st) = true → isStreaming st = true) →
  invariant {| state := st; abortControllerRef := abortControllerRef h;
               calls := abort h |}.
Proof.
  intros Hinv Hst. pose proof (abort_all_aborted h st Hinv) as Hall.
  destruct Hinv as [Href Hlive Hstatus]. split; simpl.
  - rewrite length_abort. destruct (abortControllerRef h) as [i|] eqn:Hi; [done|].
    unfold abort. by rewrite Hi.
  - intros j c Hj Hp Ha. specialize (Hall j c Hj Hp). congruence.
  - done.
Qed.

Lemma resume_invariant (h : Hook) (i : nat) (c : Call) (m : M Phase) :
  invariant h →
  calls h !! i = Some c → pending c = true →
  (if aborted c
   then m (state h) = (settled, stopped_state (state h), [onStatusChange Stopped])
   else live_outcome (state h) (m (state h))) →
  invariant (resume h i c m).1.
Proof.
  intros [Href Hlive Hstatus] Hc Hp Hm. unfold resume.
  destruct (m (state h)) as [[ph st'] e] eqn:Hmeq. simpl.
  assert (Hlook : ∀ j c', <[i:={| aborted := aborted c; phase := ph |}]> (calls h) !! j = Some c' →
            (j = i ∧ c' = {| aborted := aborted c; phase := ph |})
            ∨ (j ≠ i ∧ calls h !! j = Some c')).
  { intros j c' Hj. destruct (decide (j = i)) as [->|Hne].
    - left. rewrite list_lookup_insert_eq in Hj by by eapply lookup_lt_Some.
      by injection Hj as <-.
    - right. by rewrite list_lookup_insert_ne in Hj. }
  assert (Href' :
    match abortControllerRef h with
    | None => <[i:={| aborted := aborted c; phase := ph |}]> (calls h) = []
    | Some k =>
        S k = List.length (<[i:={| aborted := aborted c; phase := ph |}]> (calls h))
    end).
  { destruct (abortControllerRef h); [by rewrite length_insert|].
    by rewrite Href in Hc. }
  destruct (aborted c) eqn:Ha.
  - injection Hm as -> -> ->. split; simpl.
    + done.
    + intros j c' Hj Hp' Ha'. rewrite length_insert.
      apply Hlook in Hj as [[-> ->]|[Hne Hj]]; [done|].
      by apply (Hlive j c').
    + done.
  - destruct (Hlive i c Hc Hp Ha) as [Hlast Hs]. split; simpl.
    + done.
    + intros j c' Hj Hp' Ha'. rewrite length_insert.
      apply Hlook in Hj as [[-> ->]|[Hne Hj]].
      * split; [done|]. destruct Hm as [(Hph & _)|(_ & Hst)]; simpl in *.
        -- subst ph. done.
        -- congruence.
      * destruct (Hlive j c' Hj Hp' Ha') as [Hlast' _]. lia.
    + destruct Hm as [(_ & _ & Hnp)|(_ & Hst)]; simpl in *.
      * by rewrite Hnp.
      * intros _. congruence.
Qed.

Lemma step_invariant (h : Hook) (inp : Input) :
  invariant h → admissible_input h inp = true →
  up_to_date_input h inp = true →
  invariant (step options h inp).1.
Proof.
  intros Hinv Hadm Hup.
  destruct inp as [rendered| | | |i r|i r].
  - simpl. unfold startStreaming. simpl in Hup.
    apply bool_decide_eq_true in Hup. rewrite Hup.
    destruct (isStreaming (state h)) eqn:Hs; [done|].
    destruct Hinv as [Href Hlive Hstatus]. split; simpl.
    + by rewrite length_app, Nat.add_comm.
    + intros j c Hj Hp Ha. rewrite length_app, Nat.add_comm. simpl.
      split; [|done]. apply lookup_app_Some in Hj as [Hj|[Hge Hj]].
      * destruct (Hlive j c Hj Hp Ha) as [_ ?]. congruence.
      * apply list_lookup_singleton_Some in Hj as [Hj _]. lia.
    + done.
  - simpl. by apply invariant_abort.
  - simpl. by apply invariant_abort.
  - simpl. destruct Hinv as [? ? Hstatus]. by apply invariant_abort.
  - change (settles_pending h (fetch_settled i r) = true) in Hadm.
    apply settles_pending_cases in Hadm as (j & c & m & Hc & Hp & -> & Hm).
    by apply resume_invariant.
  - change (settles_pending h (read_settled i r) = true) in Hadm.
    apply settles_pending_cases in Hadm as (j & c & m & Hc & Hp & -> & Hm).
    by apply resume_invariant.
Qed.

Lemma run_invariant (h : Hook) (inputs : list Input) :
  invariant h → admissible options h inputs = true →
  up_to_date options h inputs = true →
  invariant (run options h inputs).1.
Proof.
  revert h. induction inputs as [|inp inputs IH]; intros h Hinv Hadm Hup;
    [done|].
  simpl in Hadm. apply andb_true_iff in Hadm as [Hinp Hadm].
  simpl in Hup. apply andb_true_iff in Hup as [Hinp' Hup].
  simpl. destruct (step options h inp) as [h1 e1] eqn:Hstep.
  specialize (IH h1). simpl in Hadm, Hup.
  destruct (run options h1 inputs) as [h2 e2]. simpl in *.
  apply IH; [|done..].
  pose proof (step_invariant h inp Hinv Hinp Hinp') as Hi.
  by rewrite Hstep in Hi.
Qed.

Lemma reachable_invariant (h : Hook) :
  reachable_up_to_date options h → invariant h.
Proof.
  intros (inputs & Hadm & Hup & <-).
  apply run_invariant; [apply invariant_initial|done..].
Qed.

End Invariant.

(** ** Start and stop *)

Section StartStop.
Context `{Runtime}.
Variable options : StreamingOptions.

(** The guard at work. On a hook reached from a fresh mount by calls of
    [startStreaming] from up-to-date renders, while a session is active (an
    invocation of [startStreaming] is pending and not aborted, or the
    status is connecting or connected), [startStreaming] called from an
    up-to-date render changes nothing: the status, the accumulated result
    and the error stay as they are, no observer is called and no request is
    issued. *)
Theorem start_from_up_to_date_render_is_noop (h : Hook)
    (rendered : StreamingState) :
  reachable_up_to_date options h →
  isStreaming rendered = isStreaming (state h) →
  session_active h ∨ in_progress (connectionStatus (state h)) = true →
  step options h (call_startStreaming rendered) = (h, []).
Proof.
  intros Hreach Hup Hactive.
  destruct (reachable_invariant options h Hreach) as [_ Hlive Hstatus].
  assert (Hs : isStreaming (state h) = true).
  { destruct Hactive as [(j & c & Hc & Hp & Ha)|Hin]; [|by apply Hstatus].
    by destruct (Hlive j c Hc Hp Ha). }
  simpl. unfold startStreaming. by rewrite Hup, Hs.
Qed.

(** C7 at its failing input. The guard of [startStreaming] reads the state
    of the render whose closure is called. Called from a render that showed
    [isStreaming] false while a session is active (a second call from the
    render of the first), [startStreaming] is no no-op: it clears the
    result and the error, sets the status to connecting, issues a new
    request and puts the new controller in the ref; the request of the
    active session goes on, and nothing holds its controller any more. *)
Theorem start_from_stale_render_starts_again (h : Hook)
    (rendered : StreamingState) (j : nat) (c : Call) :
  isStreaming rendered = false →
  calls h !! j = Some c → pending c = true → aborted c = false →
  let out := step options h (call_startStreaming rendered) in
  out.2 = [onStatusChange Connecting;
           fetch (url options) (requestOptions options (List.length (calls h)))]
  ∧ state out.1 = {| data := ∅; isStreaming := true; error := None;
                     connectionStatus := Connecting |}
  ∧ abortControllerRef out.1 = Some (List.length (calls h))
  ∧ abortControllerRef out.1 ≠ Some j
  ∧ calls out.1 !! j = Some c
  ∧ calls out.1 !! List.length (calls h) = Some fetching.
Proof.
  intros Hs Hc _ _ out. subst out. simpl.
  rewrite startStreaming_fresh by done. simpl.
  pose proof (lookup_lt_Some _ _ _ Hc) as Hlt.
  split_and!; [done..| | |].
  - intros [= Heq]. lia.
  - by rewrite lookup_app_l.
  - apply lookup_fresh_call.
Qed.

Lemma filter_none (P : Effect → bool) (l : list Effect) :
  Forall (λ e, P e = false) l → filter P l = [].
Proof.
  induction 1 as [|e l He _ IH]; [done|].
  rewrite filter_cons_False; [done|]. intros HP. by rewrite He in HP.
Qed.

Lemma stopped_state_id (st : StreamingState) :
  connectionStatus st = Stopped → stopped_state st = st.
Proof. destruct st. simpl. by intros ->. Qed.

Lemma resume_all_aborted (h : Hook) (i : nat) (c : Call) (st : StreamingState)
    e :
  all_aborted h → calls h !! i = Some c →
  all_aborted (resume h i c (λ _, (settled, st, e))).1.
Proof.
  intros Hall Hc j c' Hj Hp. simpl in Hj.
  destruct (decide (j = i)) as [->|Hne].
  - rewrite list_lookup_insert_eq in Hj by by eapply lookup_lt_Some.
    by injection Hj as <-.
  - rewrite list_lookup_insert_ne in Hj by done. by apply (Hall j c').
Qed.

(** Once every pending invocation is aborted and the status is stopped, the
    settlements the platform can deliver only repeat the status. *)
Lemma run_all_aborted (h : Hook) (inputs : list Input) :
  all_aborted h → connectionStatus (state h) = Stopped →
  settlements options h inputs = true →
  state (run options h inputs).1 = state h
  ∧ Forall (λ e, e = onStatusChange Stopped) (run options h inputs).2.
Proof.
  revert h. induction inputs as [|inp inputs IH]; intros h Hall Hst Hset;
    [by split|].
  simpl in Hset. apply andb_true_iff in Hset as [Hinp Hset].
  destruct (settles_pending_cases options h inp Hinp)
    as (i & c & m & Hc & Hp & Hstep & Hm).
  rewrite (Hall i c Hc Hp) in Hm.
  assert (Hres : step options h inp
                 = resume h i c (λ _, (settled, state h, [onStatusChange Stopped]))).
  { rewrite Hstep. unfold resume. by rewrite Hm, stopped_state_id. }
  pose proof (resume_all_aborted h i c (state h) [onStatusChange Stopped] Hall Hc)
    as Hall'.
  simpl. rewrite Hres in Hset |- *. unfold resume in Hset, Hall' |- *.
  cbn [fst snd] in Hset, Hall' |- *.
  destruct (IH _ Hall' Hst Hset) as [IHst IHe].
  destruct (run options _ inputs) as [h2 e2]. simpl in *.
  split; [done|]. by constructor.
Qed.

(** [stopStreaming] and one session. On a hook reached from a fresh mount
    by calls of [startStreaming] from up-to-date renders, whose status is
    connecting or connected, after [stopStreaming] and any settlements the
    platform then delivers (the pending [fetch] or read of an aborted
    request rejects with an AbortError), the status is [stopped]; the status
    observer heard "stopped" and nothing else, so the status was never
    [error]; neither the data observer nor the error observer was called;
    and the accumulated result and the error are as they were. *)
Theorem stop_ends_stopped_after_up_to_date_starts (h : Hook)
    (inputs : list Input) :
  reachable_up_to_date options h →
  in_progress (connectionStatus (state h)) = true →
  settlements options (step options h call_stopStreaming).1 inputs = true →
  let out := run options h (call_stopStreaming :: inputs) in
  state out.1 = {| data := data (state h); isStreaming := false;
                   error := error (state h); connectionStatus := Stopped |}
  ∧ Forall (λ e, e = onStatusChange Stopped) out.2
  ∧ filter is_onData out.2 = []
  ∧ filter is_onError out.2 = [].
Proof.
  intros Hreach _ Hset out.
  pose proof (reachable_invariant options h Hreach) as Hinv.
  assert (Hall : all_aborted (step options h call_stopStreaming).1).
  { by apply abort_all_aborted. }
  destruct (run_all_aborted _ inputs Hall eq_refl Hset) as [Hst He].
  assert (Hout : Forall (λ e, e = onStatusChange Stopped) out.2).
  { subst out. simpl in *.
    destruct (run options _ inputs) as [h2 e2]. simpl in *. by constructor. }
  split_and!.
  - subst out. simpl in *. by destruct (run options _ inputs) as [h2 e2].
  - done.
  - apply filter_none. eapply Forall_impl; [exact Hout|]. by intros e ->.
  - apply filter_none. eapply Forall_impl; [exact Hout|]. by intros e ->.
Qed.

(** The paths into a terminal status, side by side: [complete], the two
    handlers on an error that is not an abort, and [stopStreaming] clear
    [isStreaming]; the two handlers on an AbortError leave it as it is. *)
Lemma terminal_paths (st : StreamingState) (err : JSError) (h : Hook) :
  isStreaming (complete st).1.2 = false
  ∧ isStreaming (state (stopStreaming h).1) = false
  ∧ (is_AbortError err = false →
     isStreaming (processStream_catch err st).1.2 = false
     ∧ isStreaming (startStreaming_catch err st).1.2 = false)
  ∧ (is_AbortError err = true →
     processStream_catch err st = (tt, stopped_state st, [onStatusChange Stopped])
     ∧ startStreaming_catch err st = (tt, stopped_state st, [onStatusChange Stopped])).
Proof.
  split_and!; [done..| |].
  - intros Ha. unfold processStream_catch, startStreaming_catch. by rewrite Ha.
  - intros Ha. unfold processStream_catch, startStreaming_catch. by rewrite Ha.
Qed.

End StartStop.

Lemma reading_reachable : reachable_up_to_date Browser.options Browser.reading.
Proof. exists connected_trace. split_and!; reflexivity. Qed.

Lemma start_from_up_to_date_render_is_noop_witness :
  let h := (run Browser.options initial connected_trace).1 in
  connectionStatus (state h) = Connected
  ∧ step Browser.options h (call_startStreaming (state h)) = (h, []).
Proof.
  intros h. split; [reflexivity|].
  apply (start_from_up_to_date_render_is_noop (H := Browser.runtime)
           Browser.options h (state h)).
  - exists connected_trace. split_and!; reflexivity.
  - reflexivity.
  - right. reflexivity.
Defined.

Lemma start_from_stale_render_starts_again_witness :
  let h := (run Browser.options initial
              [call_startStreaming (state initial)]).1 in
  let out := step Browser.options h (call_startStreaming (state initial)) in
  isStreaming (state h) = true
  ∧ out.2 = [onStatusChange Connecting;
             fetch (url Browser.options) (requestOptions Browser.options 1)]
  ∧ calls out.1 = [fetching; fetching]
  ∧ abortControllerRef out.1 = Some 1.
Proof.
  intros h out.
  destruct (start_from_stale_render_starts_again (H := Browser.runtime)
              Browser.options h (state initial) 0 fetching)
    as (He & _ & Href & _); [reflexivity..|].
  split; [reflexivity|]. split; [exact He|]. split; [reflexivity|exact Href].
Defined.

Lemma stop_ends_stopped_after_up_to_date_starts_witness :
  let h := (run Browser.options initial connected_trace).1 in
  let out := run Browser.options h
               [call_stopStreaming; read_settled 0 (read_rejected AbortError)] in
  connectionStatus (state out.1) = Stopped ∧ filter is_onData out.2 = [].
Proof.
  intros h out.
  destruct (stop_ends_stopped_after_up_to_date_starts (H := Browser.runtime)
    Browser.options h
    [read_settled 0 (read_rejected AbortError)]) as (Hst & _ & Hd & _).
  - exists connected_trace. split_and!; reflexivity.
  - reflexivity.
  - reflexivity.
  - split; [|exact Hd]. subst out. rewrite Hst. reflexivity.
Defined.

(** C5 at its failing input. [startStreaming] is called twice from the
    first render, so two requests are in flight and the ref holds the
    controller of the second. [stopStreaming] is called while the status is
    connecting: it aborts the second request only. The status is stopped
    until the response of the first request arrives: then the status is
    connected, and the record the stream carries is merged and given to the
    data observer, after the cancellation. *)
Lemma stop_misses_the_session_of_a_stale_start :
  admissible Browser.options initial stale_session_trace = true
  ∧ (let before := run Browser.options initial double_start_trace in
     connectionStatus (state before.1) = Connecting
     ∧ connectionStatus (state (step Browser.options before.1
                                  call_stopStreaming).1) = Stopped)
  ∧ (let out := run Browser.options initial stale_session_trace in
     connectionStatus (state out.1) = Connected
     ∧ data (state out.1) = {[ "a" := JNumber "1" ]}
     ∧ filter is_observer_call out.2
       = [onStatusChange Connecting; fetch (url Browser.options)
                                       (requestOptions Browser.options 0);
          onStatusChange Connecting; fetch (url Browser.options)
                                       (requestOptions Browser.options 1);
          onStatusChange Stopped;
          onStatusChange Stopped;
          onStatusChange Connected;
          onData (JObject [("a", JNumber "1")])]).
Proof. repeat split; vm_compute; reflexivity. Qed.

(** C9 at its failing input. The owner unmounts a hook that reads; the read
    rejects with the AbortError; [processStream] sets the status to stopped
    and leaves [isStreaming] set. *)
Lemma teardown_abort_keeps_isStreaming :
  admissible Browser.options initial teardown_trace = true
  ∧ let out := run Browser.options initial teardown_trace in
    connectionStatus (state out.1) = Stopped
    ∧ terminal (connectionStatus (state out.1)) = true
    ∧ isStreaming (state out.1) = true.
Proof. split; [reflexivity|]. simpl. by split_and!. Qed.

(** ** Chunk boundaries *)

(** C1, as stated, fails when a chunk boundary falls inside a record: the
    whole text is the record [data: {"a":1}], and neither fragment is one. *)
Lemma chunking_independent_fails :
  ¬ chunking_independent (H := Browser.runtime) Browser.options initial
      Browser.OK split_record.
Proof.
  unfold chunking_independent. intros Hclaim.
  specialize (Hclaim eq_refl).
  apply (f_equal (λ m : Obj, m !! "a")) in Hclaim.
  vm_compute in Hclaim. discriminate Hclaim.
Qed.

Section Chunks.
Context `{Runtime}.
Variable options : StreamingOptions.

Lemma processRecord_merges (jsonStr : string) (st : StreamingState) :
  (processRecord jsonStr st).1.1
    = (if record_finishes jsonStr then Return else Next)
  ∧ data (processRecord jsonStr st).1.2
    = foldl spread (data st) (record_merges jsonStr).
Proof.
  unfold processRecord, record_finishes, record_merges.
  destruct (JSON_parse jsonStr) as [v|]; [|done]. unfold_M.
  destruct (truthy v && typeof_object v); simpl;
    destruct (get v "type") as [t|]; try done;
    destruct (strict_equals t "object"); try done;
    by destruct (strict_equals t "finish").
Qed.

Lemma processLine_merges (l : string) (st : StreamingState) :
  (processLine l st).1.1 = (if line_ends l then Return else Next)
  ∧ data (processLine l st).1.2 = foldl spread (data st) (line_merges l).
Proof.
  unfold processLine, line_ends, line_merges.
  case_bool_decide; [done|]. simpl.
  destruct (startsWith l "data: "); [|done]. simpl.
  case_bool_decide; [done|]. simpl. apply processRecord_merges.
Qed.

Lemma merges_app (a b : list string) :
  merges (a ++ b)
  = merges a ++ (if existsb line_ends a then [] else merges b).
Proof.
  induction a as [|l a IH]; [done|]. simpl.
  destruct (line_ends l); simpl; [by rewrite !app_nil_r|].
  by rewrite IH, app_assoc.
Qed.

(** The loop over the lines of a chunk merges [merges lines], and returns
    exactly when one of the lines ends the session. *)
Lemma forLines_merges (ls : list string) (st : StreamingState) :
  (forLines ls st).1.1 = (if existsb line_ends ls then Return else Next)
  ∧ data (forLines ls st).1.2 = foldl spread (data st) (merges ls).
Proof.
  revert st. induction ls as [|l ls IH]; intros st; [done|].
  rewrite forLines_cons. destruct (processLine_merges l st) as [Hf Hd].
  destruct (processLine l st) as [[f1 st1] e1]. simpl in Hf, Hd. simpl.
  destruct (line_ends l); subst f1; simpl.
  - by rewrite app_nil_r.
  - destruct (IH st1) as [IHf IHd].
    destruct (forLines ls st1) as [[f2 st2] e2]. simpl in *.
    by rewrite foldl_app, <- Hd.
Qed.

Lemma run_cons (h : Hook) (inp : Input) (inputs : list Input) :
  run options h (inp :: inputs) =
    let '(h1, e1) := step options h inp in
    let '(h2, e2) := run options h1 inputs in
    (h2, e1 ++ e2).
Proof. reflexivity. Qed.

Lemma step_read_value (h : Hook) (i : nat) (c : Call) (decoder : TextDecoder)
    (value : Uint8Array) :
  calls h !! i = Some c → phase c = await_read decoder →
  step options h (read_settled i (read_value value)) =
    let '(flow, st', e) :=
      forLines (split_lines (decode decoder value).1) (state h) in
    ({| state := st'; abortControllerRef := abortControllerRef h;
        calls := <[i:={| aborted := aborted c;
                         phase := match flow with
                                  | Return => settled
                                  | Next => await_read (decode decoder value).2
                                  end |}]> (calls h) |}, e).
Proof.
  intros Hc Hph. unfold step. rewrite Hc, Hph. unfold resume.
  rewrite processStream_value. by destruct (forLines _ _) as [[flow st'] e].
Qed.

(** Reading a stream to its end, from an invocation that awaits a chunk. *)
Lemma read_to_the_end (values : list Uint8Array) (h : Hook) (i : nat)
    (c : Call) (decoder : TextDecoder) :
  calls h !! i = Some c → phase c = await_read decoder →
  let out := run options h
               (map (λ value, read_settled i (read_value value)) values
                ++ [read_settled i read_done]) in
  data (state out.1)
  = foldl spread (data (state h))
      (merges (flat_map split_lines (decode_all decoder values)))
  ∧ connectionStatus (state out.1) = Completed.
Proof.
  revert h c decoder. induction values as [|value values IH];
    intros h c decoder Hc Hph out; subst out.
  - simpl. by rewrite Hc, Hph.
  - cbn [map app decode_all flat_map].
    rewrite run_cons, (step_read_value h i c decoder) by done.
    destruct (forLines_merges (split_lines (decode decoder value).1) (state h))
      as [Hf Hd].
    rewrite merges_app.
    destruct (forLines (split_lines (decode decoder value).1) (state h))
      as [[flow st'] e] eqn:Hfl.
    simpl in Hf, Hd.
    destruct (existsb line_ends (split_lines (decode decoder value).1)); subst flow.
    + apply forLines_return in Hfl as [Hst _].
      rewrite (run_settled options _ i {| aborted := aborted c; phase := settled |}).
      * simpl. by rewrite app_nil_r.
      * simpl. apply list_lookup_insert_eq. by eapply lookup_lt_Some.
      * done.
      * apply Forall_app. split; [|by repeat constructor].
        apply Forall_forall. intros inp Hin.
        apply list_elem_of_In, in_map_iff in Hin as (v & <- & _). done.
    + specialize (IH
        {| state := st'; abortControllerRef := abortControllerRef h;
           calls := <[i:={| aborted := aborted c;
                            phase := await_read (decode decoder value).2 |}]>
                      (calls h) |}
        {| aborted := aborted c; phase := await_read (decode decoder value).2 |}
        (decode decoder value).2).
      destruct IH as [IHd IHs].
      * simpl. apply list_lookup_insert_eq. by eapply lookup_lt_Some.
      * done.
      * destruct (run options _ _) as [h2 e2]. simpl in *.
        by rewrite foldl_app, <- Hd.
Qed.

Lemma split_lines_nonempty (s : string) : split_lines s ≠ [].
Proof.
  destruct s as [|c s]; [done|]. simpl.
  case_bool_decide; [done|]. by destruct (split_lines s).
Qed.

Lemma split_lines_line_feed (s t : string) :
  split_lines (s +:+ String LF t) = split_lines s ++ split_lines t.
Proof.
  induction s as [|c s IH]; [done|].
  simpl. rewrite IH.
  case_bool_decide; [done|].
  pose proof (split_lines_nonempty s). by destruct (split_lines s).
Qed.

Lemma ends_with_line_feed_cases (s : string) :
  ends_with_line_feed s = true →
  s = "" ∨ ∃ s', s = s' +:+ String LF "".
Proof.
  induction s as [|c s IH]; [by left|]. intros He. right.
  destruct s as [|c' s].
  - exists "". simpl in *. by apply bool_decide_eq_true in He as ->.
  - destruct (IH He) as [|[s' ->]]; [done|]. by exists (String c s').
Qed.

Lemma append_empty_r (s : string) : s +:+ "" = s.
Proof.
  induction s as [|c s IH]; [done|].
  change (String c (s +:+ "") = String c s). by rewrite IH.
Qed.

Lemma append_assoc (s t u : string) : (s +:+ t) +:+ u = s +:+ (t +:+ u).
Proof.
  induction s as [|c s IH]; [done|].
  change (String c ((s +:+ t) +:+ u) = String c (s +:+ (t +:+ u))).
  by rewrite IH.
Qed.

Lemma merges_blank (ls : list string) : merges ("" :: ls) = merges ls.
Proof. reflexivity. Qed.

(** When the chunks are cut at line feeds, the lines the loop sees, chunk by
    chunk, merge as the lines of the whole text do. *)
Lemma merges_cut_at_line_feeds (texts : list string) :
  cut_at_line_feeds texts = true →
  merges (flat_map split_lines texts) = merges (split_lines (whole_text texts)).
Proof.
  induction texts as [|t texts IH]; [done|].
  destruct texts as [|t' texts].
  - intros _. unfold whole_text. cbn [flat_map foldr].
    by rewrite app_nil_r, append_empty_r.
  - intros Hcut. cbn [cut_at_line_feeds] in Hcut.
    apply andb_true_iff in Hcut as [Ht Hcut]. specialize (IH Hcut).
    change (flat_map split_lines (t :: t' :: texts))
      with (split_lines t ++ flat_map split_lines (t' :: texts)).
    change (whole_text (t :: t' :: texts))
      with (t +:+ whole_text (t' :: texts)).
    destruct (ends_with_line_feed_cases t Ht) as [->|[s ->]].
    + change ("" +:+ whole_text (t' :: texts)) with (whole_text (t' :: texts)).
      change (split_lines "" ++ flat_map split_lines (t' :: texts))
        with ("" :: flat_map split_lines (t' :: texts)).
      by rewrite merges_blank.
    + rewrite append_assoc.
      change (String LF "" +:+ whole_text (t' :: texts))
        with (String LF (whole_text (t' :: texts))).
      rewrite !split_lines_line_feed.
      change (split_lines "") with [""].
      rewrite <- app_assoc. rewrite !merges_app.
      change ([""] ++ flat_map split_lines (t' :: texts))
        with ("" :: flat_map split_lines (t' :: texts)).
      by rewrite merges_blank, IH.
Qed.

(** On plain records the code merges what the specification describes. *)
Lemma merges_plain_lines (ls : list string) :
  forallb plain_line ls = true → merges ls = payloads ls.
Proof.
  induction ls as [|l ls IH]; [done|]. simpl.
  rewrite andb_true_iff. intros [Hl Hls]. specialize (IH Hls).
  unfold plain_line in Hl. unfold line_merges, line_ends.
  destruct (startsWith l "data: ") eqn:Hp.
  - rewrite bool_decide_eq_false_2 in Hl |- *
      by by apply startsWith_data_not_blank.
    simpl in Hl |- *.
    destruct (bool_decide (trim (slice l 6) = "[DONE]")); [done|].
    simpl in Hl |- *. unfold record_merges, record_finishes, is_finish, payload.
    destruct (JSON_parse (trim (slice l 6))) as [[| | | | | |members]|];
      try done.
    unfold is_finish in Hl. simpl in Hl |- *.
    destruct (strict_equals _ "object"); [done|].
    destruct (strict_equals _ "finish"); [done|].
    simpl. by rewrite IH.
  - rewrite orb_false_r in Hl. rewrite Hl. simpl. exact IH.
Qed.

(** C1, as the code has it. In a session whose chunks are cut at line
    feeds (every chunk but the last decodes to a text that is empty or ends
    with a line feed), the final accumulated result is the left-to-right
    shallow merge of what the records of the whole text contribute, up to
    and including the first terminator: for each record its parsed object,
    and then its nested [object] payload when its type is "object". The
    session ends completed. When no record carries a discriminator, this is
    the merge of all the records' objects, as the specification has it. *)
Theorem chunks_cut_at_line_feeds_merge_whole_text (h : Hook) (r : Response)
    (values : list Uint8Array) :
  isStreaming (state h) = false →
  ok r = true → has_body r = true →
  cut_at_line_feeds (decode_all new_TextDecoder values) = true →
  let text := whole_text (decode_all new_TextDecoder values) in
  let out := stream_session options h r values in
  data (state out.1) = shallow_merge (merges (split_lines text))
  ∧ connectionStatus (state out.1) = Completed
  ∧ (forallb plain_line (split_lines text) = true →
     data (state out.1) = merge_of_all_records text).
Proof.
  intros Hs Hok Hbody Hcut text out.
  cut (data (state out.1) = shallow_merge (merges (split_lines text))
       ∧ connectionStatus (state out.1) = Completed).
  { intros [Hd Hst]. split_and!; [done..|].
    intros Hplain. rewrite Hd. unfold merge_of_all_records.
    by rewrite merges_plain_lines. }
  subst text. rewrite <- merges_cut_at_line_feeds by done.
  assert (Hout : out =
    let '(h2, e2) :=
      run options
        {| state := {| data := ∅; isStreaming := true; error := None;
                       connectionStatus := Connected |};
           abortControllerRef := Some (List.length (calls h));
           calls := calls h ++ [ {| aborted := false;
                                    phase := await_read new_TextDecoder |} ] |}
        (map (λ value, read_settled (List.length (calls h)) (read_value value))
             values
         ++ [read_settled (List.length (calls h)) read_done]) in
    (h2, [onStatusChange Connecting;
          fetch (url options) (requestOptions options (List.length (calls h)));
          onStatusChange Connected] ++ e2)).
  { subst out. unfold stream_session. cbn [run]. unfold step at 1 2.
    rewrite startStreaming_fresh by done. cbn [calls state abortControllerRef].
    rewrite lookup_fresh_call. cbn [phase fetching].
    unfold resume, startStreaming_fetched. rewrite Hok, Hbody.
    cbn [negb calls state abortControllerRef aborted fetching].
    unfold_M. cbn [calls state abortControllerRef].
    rewrite insert_fresh_call.
    by destruct (run options _ _) as [h2 e2]. }
  destruct (read_to_the_end values
    {| state := {| data := ∅; isStreaming := true; error := None;
                   connectionStatus := Connected |};
       abortControllerRef := Some (List.length (calls h));
       calls := calls h ++ [ {| aborted := false;
                                phase := await_read new_TextDecoder |} ] |}
    (List.length (calls h))
    {| aborted := false; phase := await_read new_TextDecoder |}
    new_TextDecoder (lookup_fresh_call _ _) eq_refl) as [Hd Hst].
  rewrite Hout. destruct (run options _ _) as [h2 e2]. by split.
Qed.

End Chunks.

Lemma chunks_cut_at_line_feeds_merge_whole_text_witness :
  let values := [Browser.line (Browser.dq "data: {'a':1}");
                 Browser.line (Browser.dq "data: {'b':2}")] in
  let out := stream_session Browser.options initial Browser.OK values in
  data (state out.1) = {[ "a" := JNumber "1"; "b" := JNumber "2" ]}
  ∧ connectionStatus (state out.1) = Completed.
Proof.
  intros values out.
  destruct (chunks_cut_at_line_feeds_merge_whole_text (H := Browser.runtime)
    Browser.options initial Browser.OK values eq_refl eq_refl eq_refl eq_refl)
    as (Hd & Hs & _).
  split; [|exact Hs]. subst out. rewrite Hd. vm_compute. reflexivity.
Defined.

(** * Further properties of the hook *)

(** ** Lines and records *)

Section MoreRecords.
Context `{Runtime}.

Lemma processLine_unprefixed (l : string) (st : StreamingState) :
  startsWith l "data: " = false → processLine l st = (Next, st, []).
Proof.
  intros Hp. unfold processLine. rewrite Hp. by case_bool_decide.
Qed.

(** A line that does not begin with [data: ] (an SSE comment or [event:]
    field, or a record with white space before the prefix) is invisible:
    the chunk gives the same state, the same observer calls and the same
    console output as the chunk without the line. *)
Theorem unprefixed_line_is_invisible (l : string) (pre post : list string)
    (st : StreamingState) :
  startsWith l "data: " = false →
  forLines (pre ++ l :: post) st = forLines (pre ++ post) st.
Proof.
  intros Hp. rewrite !forLines_app.
  destruct (forLines pre st) as [[[] st1] e1]; [|done].
  rewrite forLines_cons, processLine_unprefixed by done.
  by destruct (forLines post st1) as [[flow st2] e2].
Qed.

(** A record whose JSON text is a number, a string or a boolean changes
    nothing and calls nothing; the record [null] changes nothing and ends in
    the [console.warn] of the handler, because [data.type] throws. *)
Theorem scalar_record_is_dropped (jsonStr : string) (v : JSValue)
    (st : StreamingState) :
  JSON_parse jsonStr = Some v →
  (is_scalar v = true → processRecord jsonStr st = (Next, st, []))
  ∧ (v = JNull → processRecord jsonStr st = (Next, st, [console_warn jsonStr])).
Proof.
  intros Hp. unfold processRecord. rewrite Hp. split.
  - intros Hs. destruct v; try done; simpl; by rewrite andb_false_r.
  - by intros ->.
Qed.

End MoreRecords.

Lemma unprefixed_line_is_invisible_witness :
  forLines (H := Browser.runtime)
    [Browser.dq " data: {'a':1}"; Browser.dq "data: {'b':2}"]
    (state Browser.reading)
  = forLines (H := Browser.runtime) [Browser.dq "data: {'b':2}"]
      (state Browser.reading).
Proof.
  exact (unprefixed_line_is_invisible (H := Browser.runtime)
           (Browser.dq " data: {'a':1}") [] [Browser.dq "data: {'b':2}"]
           (state Browser.reading) eq_refl).
Defined.

Lemma scalar_record_is_dropped_witness :
  processRecord (H := Browser.runtime) "42" (state Browser.reading)
    = (Next, state Browser.reading, [])
  ∧ processRecord (H := Browser.runtime) "null" (state Browser.reading)
    = (Next, state Browser.reading, [console_warn "null"]).
Proof.
  split.
  - exact (proj1 (scalar_record_is_dropped (H := Browser.runtime) "42"
                    (JNumber "42") (state Browser.reading) eq_refl) eq_refl).
  - exact (proj2 (scalar_record_is_dropped (H := Browser.runtime) "null"
                    JNull (state Browser.reading) eq_refl) eq_refl).
Defined.

(** ** The shallow merge *)

Section Merge.
Context `{Runtime}.
Variable options : StreamingOptions.

Lemma assign_cons (m : Obj) (k : string) (v : JSValue)
    (ms : list (string * JSValue)) :
  assign m ((k, v) :: ms) = assign (<[k:=v]> m) ms.
Proof. reflexivity. Qed.

(** Spreading members over a target is the union of the members, the last
    of equal keys winning, with the target, the members winning. *)
Lemma assign_union (m : Obj) (ms : list (string * JSValue)) :
  assign m ms = assign ∅ ms ∪ m.
Proof.
  revert m. induction ms as [|[k v] ms IH]; intros m.
  - simpl. by rewrite (left_id_L ∅ (∪)).
  - rewrite !assign_cons, IH, (IH (<[k:=v]> ∅)).
    rewrite insert_empty, insert_union_singleton_l.
    by rewrite (assoc_L (∪)).
Qed.

Lemma dom_assign (m : Obj) (ms : list (string * JSValue)) :
  dom m ⊆ dom (assign m ms).
Proof. rewrite assign_union, dom_union. apply union_subseteq_r. Qed.

Lemma dom_foldl_spread (m : Obj) (vs : list JSValue) :
  dom m ⊆ dom (foldl spread m vs).
Proof.
  revert m. induction vs as [|v vs IH]; intros m; [done|].
  simpl. etrans; [|apply IH]. apply dom_assign.
Qed.

Lemma assign_lookup_fresh (m : Obj) (ms : list (string * JSValue)) (k : string) :
  k ∉ ms.*1 → assign m ms !! k = m !! k.
Proof.
  revert m. induction ms as [|[k' v] ms IH]; intros m Hk; [done|].
  rewrite fmap_cons in Hk. apply not_elem_of_cons in Hk as [Hne Hk].
  rewrite assign_cons, IH by done.
  apply lookup_insert_ne. by intros ->.
Qed.

Lemma indexed_keys {A} (f : A → JSValue) (n : nat) (l : list A) (k : string) :
  k ∈ (indexed f n l).*1 → ∃ i, i < List.length l ∧ k = pretty (n + i).
Proof.
  revert n. induction l as [|x l IH]; intros n; simpl; [set_solver|].
  rewrite elem_of_cons. intros [->|Hk].
  - exists 0. split; [lia|]. by rewrite Nat.add_0_r.
  - destruct (IH _ Hk) as (i & Hi & ->). exists (S i).
    split; [lia|]. f_equal. lia.
Qed.

Lemma assign_indexed_lookup {A} (f : A → JSValue) (n : nat) (l : list A)
    (m : Obj) (i : nat) (x : A) :
  l !! i = Some x → assign m (indexed f n l) !! pretty (n + i) = Some (f x).
Proof.
  revert n m i. induction l as [|y l IH]; intros n m i Hi; [done|].
  simpl indexed. rewrite assign_cons. destruct i as [|i].
  - injection Hi as ->. rewrite Nat.add_0_r, assign_lookup_fresh.
    + apply lookup_insert_eq.
    + intros Hk. apply indexed_keys in Hk as (j & _ & Hj).
      apply (inj pretty) in Hj. lia.
  - replace (n + S i) with (S n + i) by lia. by apply IH.
Qed.

(** A record that is a JSON object without the "object" discriminator
    overwrites the keys it carries (for a key written twice in the text, the
    last value) and leaves every other key of the accumulated result as it
    was. *)
Theorem object_record_overwrites_its_keys (jsonStr : string)
    (members : list (string * JSValue)) (st : StreamingState) :
  JSON_parse jsonStr = Some (JObject members) →
  strict_equals (default JUndefined (assign ∅ members !! "type")) "object" = false →
  let st' := (processRecord jsonStr st).1.2 in
  data st' = assign ∅ members ∪ data st
  ∧ ∀ k, data st' !! k = match assign ∅ members !! k with
                         | Some v => Some v
                         | None => data st !! k
                         end.
Proof.
  intros Hp Ht st'.
  assert (Hd : data st' = assign ∅ members ∪ data st).
  { subst st'. unfold processRecord. rewrite Hp. simpl. rewrite Ht.
    unfold_M. simpl.
    destruct (strict_equals _ "finish"); simpl; apply assign_union. }
  split; [done|]. intros k. rewrite Hd, lookup_union.
  by destruct (assign ∅ members !! k), (data st !! k).
Qed.

(** A record that is a JSON array is merged like an object whose keys are
    the indices: element [i] is stored under the decimal text of [i], the
    data observer is called with the array, and no other key changes. *)
Theorem array_record_merges_indices (jsonStr : string) (items : list JSValue)
    (st : StreamingState) :
  JSON_parse jsonStr = Some (JArray items) →
  processRecord jsonStr st
    = (Next, merge_data (JArray items) st, [onData (JArray items)])
  ∧ (∀ i x, items !! i = Some x →
       data (merge_data (JArray items) st) !! pretty i = Some x)
  ∧ (∀ k, (∀ i, i < List.length items → k ≠ pretty i) →
       data (merge_data (JArray items) st) !! k = data st !! k).
Proof.
  intros Hp. split_and!.
  - unfold processRecord. by rewrite Hp.
  - intros i x Hi. simpl. unfold spread. simpl.
    by apply (assign_indexed_lookup id 0 items (data st) i x).
  - intros k Hk. simpl. unfold spread. simpl.
    apply assign_lookup_fresh. intros Hin.
    apply indexed_keys in Hin as (i & Hi & ->). by apply (Hk i).
Qed.

Lemma startStreaming_fetched_data (r : FetchResult) (st : StreamingState) :
  data (startStreaming_fetched r st).1.2 = data st.
Proof.
  destruct r as [response|err]; unfold startStreaming_fetched,
    startStreaming_catch.
  - destruct (ok response); simpl; [|done].
    by destruct (has_body response).
  - by destruct (is_AbortError err).
Qed.

Lemma processStream_dom (decoder : TextDecoder) (r : ReadResult)
    (st : StreamingState) :
  dom (data st) ⊆ dom (data (processStream decoder r st).1.2).
Proof.
  destruct r as [|value|err].
  - done.
  - rewrite processStream_value.
    destruct (forLines_merges (split_lines (decode decoder value).1) st)
      as [_ Hd].
    destruct (forLines _ st) as [[flow st'] e]. simpl in *.
    rewrite Hd. apply dom_foldl_spread.
  - unfold processStream, processStream_catch.
    by destruct (is_AbortError err).
Qed.

(** Whatever happens to a hook, short of [startStreaming] and [reset], no
    key of the accumulated result disappears: responses, chunks, the end of
    the stream, failures, [stopStreaming] and unmounting keep every key. *)
Theorem keys_never_disappear (h : Hook) (inp : Input) :
  clears_data inp = false →
  dom (data (state h)) ⊆ dom (data (state (step options h inp).1)).
Proof.
  destruct inp as [| | | |i r|i r]; try done; intros _; simpl.
  - destruct (calls h !! i) as [c|]; [|done].
    destruct (phase c); try done. unfold resume.
    pose proof (startStreaming_fetched_data r (state h)) as Hd.
    destruct (startStreaming_fetched r (state h)) as [[ph st'] e].
    simpl in *. by rewrite Hd.
  - destruct (calls h !! i) as [c|]; [|done].
    destruct (phase c) as [|decoder|]; try done. unfold resume.
    pose proof (processStream_dom decoder r (state h)) as Hd.
    by destruct (processStream decoder r (state h)) as [[ph st'] e].
Qed.

End Merge.

Lemma object_record_overwrites_its_keys_witness :
  let st := merge_data (JObject [("a", JNumber "0"); ("c", JBool true)])
              (state Browser.reading) in
  let st' := (processRecord (H := Browser.runtime)
                (Browser.dq "{'a':1,'b':2,'a':3}") st).1.2 in
  data st' !! "a" = Some (JNumber "3")
  ∧ data st' !! "b" = Some (JNumber "2")
  ∧ data st' !! "c" = Some (JBool true).
Proof.
  intros st st'.
  destruct (object_record_overwrites_its_keys (H := Browser.runtime)
    (Browser.dq "{'a':1,'b':2,'a':3}")
    [("a", JNumber "1"); ("b", JNumber "2"); ("a", JNumber "3")] st
    eq_refl eq_refl) as [_ Hk].
  subst st'. rewrite !Hk. split_and!; vm_compute; reflexivity.
Defined.

Lemma array_record_merges_indices_witness :
  let st' := (processRecord (H := Browser.runtime) (Browser.dq "['x','y']")
                (state Browser.reading)).1.2 in
  data st' !! "1" = Some (JString "y").
Proof.
  intros st'.
  destruct (array_record_merges_indices (H := Browser.runtime)
    (Browser.dq "['x','y']") [JString "x"; JString "y"]
    (state Browser.reading) eq_refl) as (Hrec & Hi & _).
  subst st'. rewrite Hrec. exact (Hi 1 (JString "y") eq_refl).
Defined.

Lemma keys_never_disappear_witness :
  let h := (step Browser.options Browser.reading
              (read_settled 0 (read_value
                 (Browser.line (Browser.dq "data: {'a':1}"))))).1 in
  "a" ∈ dom (data (state (step Browser.options h call_stopStreaming).1)).
Proof.
  intros h.
  apply (keys_never_disappear (H := Browser.runtime) Browser.options h
           call_stopStreaming eq_refl).
  apply elem_of_dom. exists (JNumber "1"). vm_compute. reflexivity.
Defined.

(** ** Flags and requests *)

Section Flags.
Context `{Runtime}.
Variable options : StreamingOptions.

Lemma processStream_flags (decoder : TextDecoder) (r : ReadResult)
    (st : StreamingState) :
  flags_agree st → flags_agree (processStream decoder r st).1.2.
Proof.
  intros [Hq He]. destruct r as [|value|err].
  - by split.
  - rewrite processStream_value.
    destruct (forLines _ st) as [[[] st'] e] eqn:Hfl; simpl.
    + apply forLines_next in Hfl as (Hs & Hst & Herr).
      unfold flags_agree. by rewrite Hs, Hst, Herr.
    + apply forLines_return in Hfl as [Hst Hs]. split; [done|].
      by rewrite Hst.
  - unfold processStream, processStream_catch.
    destruct (is_AbortError err); by split.
Qed.

Lemma startStreaming_fetched_flags (r : FetchResult) (st : StreamingState) :
  flags_agree st → flags_agree (startStreaming_fetched r st).1.2.
Proof.
  intros [Hq He]. destruct r as [response|err];
    unfold startStreaming_fetched, startStreaming_catch.
  - destruct (ok response); simpl; [|by split].
    destruct (has_body response); by split.
  - destruct (is_AbortError err); by split.
Qed.

Lemma step_flags (h : Hook) (inp : Input) :
  flags_agree (state h) → flags_agree (state (step options h inp).1).
Proof.
  intros Hf. destruct inp as [rendered| | | |i r|i r]; simpl.
  - unfold startStreaming. destruct (isStreaming rendered); [done|by split].
  - by split.
  - by split.
  - done.
  - destruct (calls h !! i) as [c|]; [|done].
    destruct (phase c); try done. unfold resume.
    pose proof (startStreaming_fetched_flags r (state h) Hf) as Hf'.
    by destruct (startStreaming_fetched r (state h)) as [[ph st'] e].
  - destruct (calls h !! i) as [c|]; [|done].
    destruct (phase c) as [|decoder|]; try done. unfold resume.
    pose proof (processStream_flags decoder r (state h) Hf) as Hf'.
    by destruct (processStream decoder r (state h)) as [[ph st'] e].
Qed.

(** After any inputs whatever, in any order, a hook whose status is idle,
    completed or error is not streaming, and a hook whose status is error
    has an error message. (The status stopped is the one that can go with a
    set streaming flag.) *)
Theorem quiet_status_is_not_streaming (inputs : list Input) :
  let h := (run options initial inputs).1 in
  (quiet (connectionStatus (state h)) = true → isStreaming (state h) = false)
  ∧ (connectionStatus (state h) = Error → is_Some (error (state h))).
Proof.
  assert (Hrun : ∀ h, flags_agree (state h) →
                      flags_agree (state (run options h inputs).1)).
  { induction inputs as [|inp inputs IH]; intros h Hf; [done|].
    simpl. pose proof (step_flags h inp Hf) as Hf1.
    destruct (step options h inp) as [h1 e1].
    specialize (IH h1 Hf1). by destruct (run options h1 inputs) as [h2 e2]. }
  apply Hrun. by split.
Qed.


(** Aborted requests settle one by one: each settlement only announces
    "stopped". *)
Lemma run_aborted_requests (h : Hook) (inputs : list Input) :
  all_aborted h → settlements options h inputs = true →
  state (run options h inputs).1
    = match inputs with [] => state h | _ => stopped_state (state h) end
  ∧ (run options h inputs).2
    = replicate (List.length inputs) (onStatusChange Stopped).
Proof.
  revert h. induction inputs as [|inp inputs IH]; intros h Hall Hset;
    [by split|].
  simpl in Hset. apply andb_true_iff in Hset as [Hinp Hset].
  destruct (settles_pending_cases options h inp Hinp)
    as (i & c & m & Hc & Hp & Hstep & Hm).
  rewrite (Hall i c Hc Hp) in Hm.
  pose proof (resume_all_aborted h i c (stopped_state (state h))
                [onStatusChange Stopped] Hall Hc) as Hall'.
  assert (Hres : step options h inp
    = resume h i c (λ _, (settled, stopped_state (state h),
                           [onStatusChange Stopped]))).
  { rewrite Hstep. unfold resume. by rewrite Hm. }
  simpl. rewrite Hres in Hset |- *. unfold resume in Hset, Hall' |- *.
  cbn [fst snd] in Hset, Hall' |- *.
  destruct (IH _ Hall' Hset) as [IHst IHe].
  destruct (run options _ inputs) as [h2 e2]. simpl in *.
  split; [|by rewrite IHe].
  rewrite IHst. by destruct inputs.
Qed.

(** [reset] on a hook reached from a fresh mount by calls of
    [startStreaming] from up-to-date renders clears the result and the
    error, stops streaming, sets the status to idle and calls no observer.
    When a request was in flight, its abort arrives afterwards: each aborted
    request that settles announces "stopped", so the status ends as stopped,
    not idle, while the result and the error stay cleared. *)
Theorem reset_then_abort_shows_stopped (h : Hook) (inputs : list Input) :
  reachable_up_to_date options h →
  settlements options (step options h call_reset).1 inputs = true →
  let out := run options h (call_reset :: inputs) in
  state out.1 = {| data := ∅; isStreaming := false; error := None;
                   connectionStatus :=
                     match inputs with [] => Idle | _ => Stopped end |}
  ∧ out.2 = replicate (List.length inputs) (onStatusChange Stopped).
Proof.
  intros Hreach Hset out.
  pose proof (reachable_invariant options h Hreach) as Hinv.
  assert (Hall : all_aborted (step options h call_reset).1).
  { by apply abort_all_aborted. }
  destruct (run_aborted_requests _ inputs Hall Hset) as [Hst He].
  subst out. simpl in *.
  destruct (run options _ inputs) as [h2 e2]. simpl in *.
  split; [|done]. rewrite Hst. by destruct inputs.
Qed.

End Flags.


Lemma reset_then_abort_shows_stopped_witness :
  let out := run Browser.options Browser.reading
               [call_reset; read_settled 0 (read_rejected AbortError)] in
  connectionStatus (state out.1) = Stopped ∧ data (state out.1) = ∅.
Proof.
  intros out.
  destruct (reset_then_abort_shows_stopped (H := Browser.runtime)
    Browser.options Browser.reading
    [read_settled 0 (read_rejected AbortError)]) as [Hst _].
  - exists connected_trace. split_and!; reflexivity.
  - reflexivity.
  - subst out. rewrite Hst. by split.
Defined.

(** ** Whole sessions, whatever the chunks *)

Section WholeSessions.
Context `{Runtime}.
Variable options : StreamingOptions.

Lemma processRecord_state (jsonStr : string) (st : StreamingState) :
  (processRecord jsonStr st).1.2
  = (let st1 := with_data st (foldl spread (data st) (record_merges jsonStr)) in
     if record_finishes jsonStr then completed_state st1 else st1)
  ∧ filter is_lifecycle (processRecord jsonStr st).2
    = (if record_finishes jsonStr
       then [onStatusChange Completed; onComplete] else []).
Proof.
  unfold processRecord, record_finishes, record_merges.
  destruct (JSON_parse jsonStr) as [v|]; [|by destruct st]. unfold_M.
  destruct (truthy v && typeof_object v); simpl;
    destruct (get v "type") as [t|]; try (by destruct st);
    destruct (strict_equals t "object"); try (by destruct st);
    by destruct (strict_equals t "finish"), st.
Qed.

Lemma processLine_state (l : string) (st : StreamingState) :
  (processLine l st).1.2
  = (let st1 := with_data st (foldl spread (data st) (line_merges l)) in
     if line_ends l then completed_state st1 else st1)
  ∧ filter is_lifecycle (processLine l st).2
    = (if line_ends l then [onStatusChange Completed; onComplete] else []).
Proof.
  unfold processLine, line_ends, line_merges.
  case_bool_decide; [by destruct st|]. simpl.
  destruct (startsWith l "data: "); [|by destruct st]. simpl.
  case_bool_decide; [by destruct st|]. simpl. apply processRecord_state.
Qed.

(** The state and the lifecycle calls of the loop over the lines of a
    chunk. *)
Lemma forLines_state (ls : list string) (st : StreamingState) :
  (forLines ls st).1.2
  = (let st1 := with_data st (foldl spread (data st) (merges ls)) in
     if existsb line_ends ls then completed_state st1 else st1)
  ∧ filter is_lifecycle (forLines ls st).2
    = (if existsb line_ends ls
       then [onStatusChange Completed; onComplete] else []).
Proof.
  revert st. induction ls as [|l ls IH]; intros st; [by destruct st|].
  rewrite forLines_cons.
  destruct (processLine_merges l st) as [Hf _].
  destruct (processLine_state l st) as [Hst He].
  destruct (processLine l st) as [[f1 st1] e1]. simpl in Hf, Hst, He. simpl.
  destruct (line_ends l); subst f1; simpl.
  - by rewrite app_nil_r.
  - destruct (IH st1) as [IHst IHe].
    destruct (forLines ls st1) as [[f2 st2] e2]. simpl in *.
    rewrite filter_app, He, IHe, IHst, Hst. simpl.
    rewrite foldl_app. by destruct (existsb line_ends ls).
Qed.

(** Reading a stream to its last settlement [last], which ends the
    invocation by [act]. *)
Lemma read_stream (last : ReadResult) (act : M unit)
    (values : list Uint8Array) (h : Hook) (i : nat) (c : Call)
    (decoder : TextDecoder) :
  (∀ d st, processStream d last st = (settled, (act st).1.2, (act st).2)) →
  calls h !! i = Some c → phase c = await_read decoder →
  let out := run options h
               (map (λ value, read_settled i (read_value value)) values
                ++ [read_settled i last]) in
  let ls := flat_map split_lines (decode_all decoder values) in
  let st1 := with_data (state h) (foldl spread (data (state h)) (merges ls)) in
  state out.1 = (if existsb line_ends ls then completed_state st1
                 else (act st1).1.2)
  ∧ filter is_lifecycle out.2
    = (if existsb line_ends ls then [onStatusChange Completed; onComplete]
       else filter is_lifecycle (act st1).2).
Proof.
  intros Hlast. revert h c decoder.
  induction values as [|value values IH]; intros h c decoder Hc Hph out ls st1;
    subst out ls st1.
  - simpl. rewrite Hc, Hph. unfold resume. rewrite Hlast. simpl.
    rewrite app_nil_r. by destruct (state h).
  - cbn [map app decode_all flat_map].
    rewrite run_cons, (step_read_value options h i c decoder) by done.
    destruct (forLines_merges (split_lines (decode decoder value).1) (state h))
      as [Hf _].
    destruct (forLines_state (split_lines (decode decoder value).1) (state h))
      as [Hst He].
    rewrite merges_app, existsb_app.
    destruct (forLines (split_lines (decode decoder value).1) (state h))
      as [[flow st'] e] eqn:Hfl.
    simpl in Hf, Hst, He.
    destruct (existsb line_ends (split_lines (decode decoder value).1));
      subst flow.
    + rewrite (run_settled options _ i {| aborted := aborted c; phase := settled |}).
      * simpl. by rewrite !app_nil_r.
      * simpl. apply list_lookup_insert_eq. by eapply lookup_lt_Some.
      * done.
      * apply Forall_app. split; [|by repeat constructor].
        apply Forall_forall. intros inp Hin.
        apply list_elem_of_In, in_map_iff in Hin as (v & <- & _). done.
    + specialize (IH
        {| state := st'; abortControllerRef := abortControllerRef h;
           calls := <[i:={| aborted := aborted c;
                            phase := await_read (decode decoder value).2 |}]>
                      (calls h) |}
        {| aborted := aborted c; phase := await_read (decode decoder value).2 |}
        (decode decoder value).2).
      destruct IH as [IHst IHe].
      * simpl. apply list_lookup_insert_eq. by eapply lookup_lt_Some.
      * done.
      * destruct (run options _ _) as [h2 e2]. simpl in *.
        rewrite filter_app, He, IHe, IHst, Hst. simpl.
        by rewrite foldl_app.
Qed.

(** The two inputs that open a session whose response streams. *)
Lemma run_connect (h : Hook) (r : Response) (inputs : list Input) :
  isStreaming (state h) = false → ok r = true → has_body r = true →
  run options h
    (call_startStreaming (state h)
     :: fetch_settled (List.length (calls h)) (fetch_resolved r) :: inputs)
  = let '(h2, e2) :=
      run options
        {| state := {| data := ∅; isStreaming := true; error := None;
                       connectionStatus := Connected |};
           abortControllerRef := Some (List.length (calls h));
           calls := calls h ++ [ {| aborted := false;
                                    phase := await_read new_TextDecoder |} ] |}
        inputs in
    (h2, [onStatusChange Connecting;
          fetch (url options) (requestOptions options (List.length (calls h)));
          onStatusChange Connected] ++ e2).
Proof.
  intros Hs Hok Hbody. cbn [run]. unfold step at 1 2.
  rewrite startStreaming_fresh by done. cbn [calls state abortControllerRef].
  rewrite lookup_fresh_call. cbn [phase fetching].
  unfold resume, startStreaming_fetched. rewrite Hok, Hbody.
  cbn [negb calls state abortControllerRef aborted fetching].
  unfold_M. cbn [calls state abortControllerRef].
  rewrite insert_fresh_call.
  by destruct (run options _ _) as [h2 e2].
Qed.

(** A session whose response streams and whose stream ends, whatever the
    chunks and wherever they are cut: the result is the left-to-right merge
    of what the lines contribute, the lines being those of each chunk on its
    own, up to the first terminator; the result of an earlier session plays
    no part; the hook ends completed and not streaming, without error; and
    the owner hears connecting, connected, completed and one [onComplete],
    in this order and nothing else of the kind. *)
Theorem session_completes_once (h : Hook) (r : Response)
    (values : list Uint8Array) :
  isStreaming (state h) = false → ok r = true → has_body r = true →
  let out := stream_session options h r values in
  state out.1 = {| data := shallow_merge (merges (lines_seen values));
                   isStreaming := false; error := None;
                   connectionStatus := Completed |}
  ∧ filter is_lifecycle out.2
    = [onStatusChange Connecting; onStatusChange Connected;
       onStatusChange Completed; onComplete].
Proof.
  intros Hs Hok Hbody out. subst out. unfold stream_session.
  rewrite run_connect by done.
  destruct (read_stream read_done complete values
    {| state := {| data := ∅; isStreaming := true; error := None;
                   connectionStatus := Connected |};
       abortControllerRef := Some (List.length (calls h));
       calls := calls h ++ [ {| aborted := false;
                                phase := await_read new_TextDecoder |} ] |}
    (List.length (calls h))
    {| aborted := false; phase := await_read new_TextDecoder |}
    new_TextDecoder (λ _ _, eq_refl) (lookup_fresh_call _ _) eq_refl)
    as [Hst He].
  destruct (run options _ _) as [h2 e2]. cbn [fst snd] in *.
  rewrite filter_app, Hst, He. unfold lines_seen, shallow_merge.
  by destruct (existsb line_ends _).
Qed.

(** A session whose stream breaks with an error that is not an abort. If a
    terminator came first, the session is completed and the failure is never
    seen. Otherwise the hook ends in error with the fixed message "Error
    processing stream", whatever the error says, and keeps the result merged
    so far. *)
Theorem broken_stream_keeps_partial_result (h : Hook) (r : Response)
    (values : list Uint8Array) (err : JSError) :
  isStreaming (state h) = false → ok r = true → has_body r = true →
  is_AbortError err = false →
  let out := broken_stream_session options h r values err in
  let merged := shallow_merge (merges (lines_seen values)) in
  state out.1
  = (if existsb line_ends (lines_seen values)
     then {| data := merged; isStreaming := false; error := None;
             connectionStatus := Completed |}
     else {| data := merged; isStreaming := false;
             error := Some "Error processing stream";
             connectionStatus := Error |})
  ∧ filter is_lifecycle out.2
    = [onStatusChange Connecting; onStatusChange Connected]
      ++ (if existsb line_ends (lines_seen values)
          then [onStatusChange Completed; onComplete]
          else [onStatusChange Error; onError "Error processing stream"]).
Proof.
  intros Hs Hok Hbody Herr out merged. subst out merged.
  unfold broken_stream_session. rewrite run_connect by done.
  set (h1 := {| state := {| data := ∅; isStreaming := true; error := None;
                            connectionStatus := Connected |};
                abortControllerRef := Some (List.length (calls h));
                calls := calls h ++ [ {| aborted := false;
                                         phase := await_read new_TextDecoder |} ] |}).
  assert (Hlast : ∀ d st, processStream d (read_rejected err) st
                  = (settled, (processStream_catch err st).1.2,
                     (processStream_catch err st).2)).
  { intros d st. unfold processStream, processStream_catch. by rewrite Herr. }
  destruct (read_stream (read_rejected err) (processStream_catch err) values h1
    (List.length (calls h))
    {| aborted := false; phase := await_read new_TextDecoder |}
    new_TextDecoder Hlast (lookup_fresh_call _ _) eq_refl) as [Hst He].
  destruct (run options h1 _) as [h2 e2]. cbn [fst snd] in *.
  rewrite filter_app, Hst, He.
  unfold lines_seen, shallow_merge, processStream_catch. rewrite Herr.
  by destruct (existsb line_ends _).
Qed.

End WholeSessions.

Lemma session_completes_once_witness :
  let out := stream_session Browser.options initial Browser.OK split_record in
  state out.1 = {| data := ∅; isStreaming := false; error := None;
                   connectionStatus := Completed |}.
Proof.
  intros out.
  destruct (session_completes_once (H := Browser.runtime) Browser.options
    initial Browser.OK split_record eq_refl eq_refl eq_refl) as [Hst _].
  subst out. rewrite Hst. f_equal.
Defined.

Lemma broken_stream_keeps_partial_result_witness :
  let out := broken_stream_session Browser.options initial Browser.OK
               [Browser.line (Browser.dq "data: {'a':1}")]
               (new_Error "network error") in
  connectionStatus (state out.1) = Error
  ∧ error (state out.1) = Some "Error processing stream"
  ∧ data (state out.1) = {[ "a" := JNumber "1" ]}.
Proof.
  intros out.
  destruct (broken_stream_keeps_partial_result (H := Browser.runtime)
    Browser.options initial Browser.OK
    [Browser.line (Browser.dq "data: {'a':1}")] (new_Error "network error")
    eq_refl eq_refl eq_refl eq_refl) as [Hst _].
  subst out. rewrite Hst. by split_and!.
Defined.

(** ** Starting and stopping *)

Section MoreStartStop.
Context `{Runtime}.
Variable options : StreamingOptions.

(** A session whose request fails before any response, with an error that
    is not an abort (a network failure): the hook ends in error, not
    streaming, with an empty result; the message is "Failed to start
    streaming: " followed by the message of the error, or by "Unknown error"
    when what was thrown is not an [Error]; the error observer gets the same
    message, and the data observer is not called. *)
Theorem failed_fetch_is_an_error (h : Hook) (err : JSError) :
  isStreaming (state h) = false →
  is_AbortError err = false →
  let out := failed_fetch_scenario options h err in
  state out.1 = {| data := ∅; isStreaming := false;
                   error := Some (start_failure_message err);
                   connectionStatus := Error |}
  ∧ filter is_observer_call out.2
    = [onStatusChange Connecting;
       fetch (url options) (requestOptions options (List.length (calls h)));
       onStatusChange Error; onError (start_failure_message err)].
Proof.
  intros Hs Herr out.
  assert (Hout : out =
    ({| state := {| data := ∅; isStreaming := false;
                    error := Some (start_failure_message err);
                    connectionStatus := Error |};
        abortControllerRef := Some (List.length (calls h));
        calls := calls h ++ [ {| aborted := false; phase := settled |} ] |},
     [onStatusChange Connecting;
      fetch (url options) (requestOptions options (List.length (calls h)));
      console_error err; onStatusChange Error;
      onError (start_failure_message err)])).
  { subst out. unfold failed_fetch_scenario. cbn [run]. unfold step at 1 2.
    rewrite startStreaming_fresh by done. cbn [calls state abortControllerRef].
    rewrite lookup_fresh_call. cbn [phase fetching].
    unfold resume, startStreaming_fetched, startStreaming_catch.
    rewrite Herr. unfold_M. cbn [calls state abortControllerRef].
    by rewrite insert_fresh_call. }
  rewrite Hout. split; reflexivity.
Qed.

(** The headers of the request the hook issues: the header Content-Type is
    application/json unless the caller sets it; every header of the caller
    is sent as given; and nothing else is added. *)
Theorem request_headers_default_and_override (signal : nat) :
  let req := requestOptions options signal in
  req_headers req !! "Content-Type"
  = Some (default "application/json" (headers options !! "Content-Type"))
  ∧ (∀ k v, headers options !! k = Some v → req_headers req !! k = Some v)
  ∧ (∀ k, k ≠ "Content-Type" → req_headers req !! k = headers options !! k).
Proof.
  intros req. subst req. unfold requestOptions. simpl. split_and!.
  - rewrite lookup_union, lookup_singleton_eq.
    by destruct (headers options !! "Content-Type").
  - intros k v Hk. by apply lookup_union_Some_l.
  - intros k Hk. rewrite lookup_union, lookup_singleton_ne by done.
    by destruct (headers options !! k).
Qed.

Lemma abort_abort (h : Hook) (st : StreamingState) :
  abort {| state := st; abortControllerRef := abortControllerRef h;
           calls := abort h |} = abort h.
Proof.
  unfold abort. simpl. destruct (abortControllerRef h) as [i|]; [|done].
  rewrite list_alter_alter_eq. by apply list_alter_ext.
Qed.

(** [stopStreaming] and [reset] are idempotent on the hook: a second call
    leaves the state, the ref and the requests as the first call left them.
    The only difference is outside: [stopStreaming] calls the status
    observer with "stopped" each time, [reset] never calls an observer. *)
Theorem stop_and_reset_are_idempotent (h : Hook) :
  (step options (step options h call_stopStreaming).1 call_stopStreaming
   = ((step options h call_stopStreaming).1, [onStatusChange Stopped]))
  ∧ (step options (step options h call_reset).1 call_reset
     = ((step options h call_reset).1, [])).
Proof.
  split; simpl.
  - unfold stopStreaming. simpl. by rewrite abort_abort.
  - unfold reset. simpl. by rewrite abort_abort.
Qed.

Lemma forLines_ends_cut (pre post : list string) (l : string)
    (st : StreamingState) :
  line_ends l = true →
  forLines (pre ++ l :: post) st = forLines (pre ++ [l]) st.
Proof.
  intros Hl. rewrite !forLines_app.
  destruct (forLines pre st) as [[[] st1] e1]; [|done].
  rewrite !forLines_cons.
  destruct (processLine_merges l st1) as [Hf _]. rewrite Hl in Hf.
  destruct (processLine l st1) as [[f st2] e2]. simpl in Hf. by subst f.
Qed.

(** A record of type "finish" ends the session like the terminator does:
    the invocation that reads it ends completed and not streaming; the
    state, the observer calls and the console output are those of the lines
    up to and including the finish record, so no line after it is
    processed; the invocation has returned, and no later settlement for it
    changes anything. The finish record itself was merged before. *)
Theorem finish_record_terminates (h : Hook) (i : nat) (c : Call)
    (decoder : TextDecoder) (value : Uint8Array) (pre post : list string)
    (l : string) :
  calls h !! i = Some c →
  phase c = await_read decoder →
  split_lines (decode decoder value).1 = pre ++ l :: post →
  is_finish_line l = true →
  let out := step options h (read_settled i (read_value value)) in
  connectionStatus (state out.1) = Completed
  ∧ isStreaming (state out.1) = false
  ∧ data (state out.1)
    = foldl spread (data (state h)) (merges (pre ++ [l]))
  ∧ calls out.1 !! i = Some {| aborted := aborted c; phase := settled |}
  ∧ (state out.1, out.2) =
      ((forLines (pre ++ [l]) (state h)).1.2, (forLines (pre ++ [l]) (state h)).2)
  ∧ (∀ inputs, Forall (settles_call i) inputs →
       run options out.1 inputs = (out.1, [])).
Proof.
  intros Hc Hph Hsplit Hfin out.
  assert (Hends : line_ends l = true).
  { unfold is_finish_line in Hfin. unfold line_ends.
    apply andb_true_iff in Hfin as [Hfin Hrec].
    apply andb_true_iff in Hfin as [Hp _]. rewrite Hp, Hrec.
    rewrite bool_decide_eq_false_2 by by apply startsWith_data_not_blank.
    simpl. by rewrite orb_true_r. }
  assert (Hex : existsb line_ends (pre ++ l :: post) = true).
  { rewrite existsb_app. simpl. rewrite Hends. by rewrite orb_true_r. }
  assert (Hm : merges (pre ++ l :: post) = merges (pre ++ [l])).
  { rewrite !merges_app. simpl. by rewrite Hends. }
  subst out. rewrite (step_read_value options h i c decoder) by done.
  rewrite Hsplit.
  pose proof (forLines_ends_cut pre post l (state h) Hends) as Hcut.
  destruct (forLines_merges (pre ++ l :: post) (state h)) as [Hf Hd].
  destruct (forLines (pre ++ l :: post) (state h)) as [[flow st'] e] eqn:Hfl.
  simpl in Hf, Hd. rewrite Hex in Hf. subst flow.
  apply forLines_return in Hfl as [Hst Hs]. simpl.
  assert (Hi : <[i:={| aborted := aborted c; phase := settled |}]> (calls h) !! i
               = Some {| aborted := aborted c; phase := settled |}).
  { apply list_lookup_insert_eq. by eapply lookup_lt_Some. }
  split_and!; [done|done|by rewrite Hd, Hm|done|by rewrite <- Hcut|].
  intros inputs Hin.
  by apply (run_settled options _ i {| aborted := aborted c; phase := settled |}).
Qed.

End MoreStartStop.

Lemma failed_fetch_is_an_error_witness :
  let out := failed_fetch_scenario Browser.options initial
               {| instanceof_Error := true; name := "TypeError";
                  message := "Failed to fetch" |} in
  error (state out.1) = Some "Failed to start streaming: Failed to fetch".
Proof.
  intros out.
  destruct (failed_fetch_is_an_error (H := Browser.runtime) Browser.options
    initial {| instanceof_Error := true; name := "TypeError";
               message := "Failed to fetch" |} eq_refl eq_refl) as [Hst _].
  subst out. by rewrite Hst.
Defined.

Lemma finish_record_terminates_witness :
  let value :=
    Browser.line (Browser.dq "data: {'a':1}") +:+ finish_chunk
    +:+ Browser.line (Browser.dq "data: {'b':2}") in
  let out := step Browser.options Browser.reading
               (read_settled 0 (read_value value)) in
  connectionStatus (state out.1) = Completed
  ∧ data (state out.1) !! "b" = None
  ∧ filter is_onData out.2
    = [onData (JObject [("a", JNumber "1")]); onData finish_record].
Proof.
  intros value out.
  destruct (finish_record_terminates (H := Browser.runtime) Browser.options
    Browser.reading 0
    {| aborted := false; phase := await_read new_TextDecoder |}
    new_TextDecoder value
    [Browser.dq "data: {'a':1}"] [Browser.dq "data: {'b':2}"; ""]
    ("data: " +:+ finish_text) eq_refl eq_refl eq_refl eq_refl)
    as (Hst & _ & Hd & _ & He & _).
  split; [exact Hst|]. split.
  - subst out. rewrite Hd. vm_compute. reflexivity.
  - pose proof (f_equal snd He) as He2. cbn [snd] in He2.
    subst out. rewrite He2. vm_compute. reflexivity.
Defined.

Lemma request_headers_default_and_override_witness :
  let req := requestOptions (H := Browser.runtime) custom_options 0 in
  req_headers req !! "Authorization" = Some "Bearer t"
  ∧ req_headers req !! "Content-Type" = Some "text/plain".
Proof.
  intros req.
  destruct (request_headers_default_and_override (H := Browser.runtime)
    custom_options 0) as (Hct & Hk & _).
  split.
  - apply Hk. vm_compute. reflexivity.
  - subst req. rewrite Hct. vm_compute. reflexivity.
Defined.

Lemma quiet_status_is_not_streaming_witness :
  let h := (run Browser.options initial
              (connected_trace ++ [read_settled 0 read_done])).1 in
  isStreaming (state h) = false.
Proof.
  intros h.
  apply (quiet_status_is_not_streaming (H := Browser.runtime) Browser.options
           (connected_trace ++ [read_settled 0 read_done])).
  reflexivity.
Defined.

(** ** Line ends *)

Section LineEnds.
Context `{Runtime}.

Lemma string_app_cons (a : ascii) (s t : string) :
  String a s +:+ t = String a (s +:+ t).
Proof. reflexivity. Qed.

Lemma trimEnd_app_space (c : ascii) (t : string) :
  is_white_space c = true → trimEnd (t +:+ String c "") = trimEnd t.
Proof.
  intros Hc. induction t as [|a t IH].
  - change (trimEnd (String c "") = ""). simpl. by rewrite Hc.
  - rewrite string_app_cons. simpl. by rewrite IH.
Qed.

Lemma trimStart_app_space (c : ascii) (l : string) :
  is_white_space c = true →
  trimStart (l +:+ String c "")
  = match trimStart l with
    | EmptyString => EmptyString
    | t => t +:+ String c ""
    end.
Proof.
  intros Hc. induction l as [|a l IH].
  - change (trimStart (String c "") = ""). simpl. by rewrite Hc.
  - rewrite string_app_cons. simpl. by destruct (is_white_space a).
Qed.

Lemma trim_app_space (c : ascii) (l : string) :
  is_white_space c = true → trim (l +:+ String c "") = trim l.
Proof.
  intros Hc. unfold trim. rewrite trimStart_app_space by done.
  destruct (trimStart l) as [|a t] eqn:Ht; [done|].
  by rewrite trimEnd_app_space.
Qed.

Lemma startsWith_app_other (c : ascii) (p l : string) :
  has_char c p = false →
  startsWith (l +:+ String c "") p = startsWith l p.
Proof.
  revert l. induction p as [|a p IH]; intros l Hp.
  - by destruct l.
  - simpl in Hp. apply orb_false_iff in Hp as [Ha Hp].
    destruct l as [|b l].
    + change (startsWith (String c "") (String a p) = false). simpl.
      apply bool_decide_eq_false in Ha.
      rewrite bool_decide_eq_false_2; [done|]. done.
    + rewrite string_app_cons. simpl. by rewrite IH.
Qed.

Lemma slice_app_prefixed (p l t : string) :
  startsWith l p = true →
  slice (l +:+ t) (String.length p) = slice l (String.length p) +:+ t.
Proof.
  revert l. induction p as [|a p IH]; intros l Hp.
  - destruct l; [by destruct t|done].
  - destruct l as [|b l]; [done|]. simpl in Hp.
    apply andb_true_iff in Hp as [_ Hp].
    rewrite string_app_cons. simpl. by apply IH.
Qed.

Lemma processLine_with_CR (l : string) (st : StreamingState) :
  processLine (with_CR l) st = processLine l st.
Proof.
  unfold processLine, with_CR.
  rewrite trim_app_space, startsWith_app_other by done.
  case_bool_decide; [done|].
  destruct (startsWith l "data: ") eqn:Hp; [|done].
  change 6 with (String.length "data: ").
  rewrite slice_app_prefixed by done.
  by rewrite trim_app_space.
Qed.

(** Line ends may be CRLF: lines that end with a carriage return give the
    same state, the same observer calls and the same console output as the
    same lines without it. *)
Theorem carriage_returns_are_ignored (ls : list string) (st : StreamingState) :
  forLines (with_CR <$> ls) st = forLines ls st.
Proof.
  revert st. induction ls as [|l ls IH]; intros st; [done|].
  rewrite fmap_cons, !forLines_cons, processLine_with_CR.
  destruct (processLine l st) as [[[] st1] e1]; [|done].
  by rewrite IH.
Qed.

End LineEnds.

(** * The components that use the hook *)

Section Generators.
Import Generator.
Context `{Runtime}.
Variable options : StreamingOptions.

(** The effect lists [hasData] among its dependencies and sets it: it runs
    again after it has set it. The second run changes nothing, so the
    component settles after one extra render. *)
Theorem sync_is_idempotent (s : StreamingState) (v : View) :
  sync s (sync s v) = sync s v.
Proof.
  destruct v as [d a hd]. unfold sync. simpl.
  destruct (isStreaming s).
  - by destruct hd, (has_keys (data s)).
  - destruct (bool_decide (connectionStatus s = Completed)).
    + by destruct (has_keys (data s)).
    + by destruct (bool_decide (connectionStatus s = Idle)), hd.
Qed.

(** The effect only ever turns [hasData] on, and only for a result with at
    least one key that is streaming or completed: nothing but the button
    "Clear Results" turns it off again. *)
Theorem sync_hasData (s : StreamingState) (v : View) :
  hasData (sync s v)
  = hasData v
    || ((isStreaming s || bool_decide (connectionStatus s = Completed))
        && has_keys (data s)).
Proof.
  destruct v as [d a hd]. unfold sync. simpl.
  destruct (isStreaming s); simpl.
  - by destruct hd, (has_keys (data s)).
  - destruct (bool_decide (connectionStatus s = Completed)); simpl.
    + by destruct hd, (has_keys (data s)).
    + by destruct (bool_decide (connectionStatus s = Idle)), hd.
Qed.

(** What the view shows after the effect. While the hook streams: the
    result so far, typewriter on. When the session is completed: the
    result, typewriter off. When the session was stopped or failed: what
    the view showed before, so a typewriter that was on stays on. *)
Theorem sync_follows_the_hook (s : StreamingState) (v : View) :
  (isStreaming s = true →
     typewriterData (sync s v) = data s ∧ isTypewriterActive (sync s v) = true)
  ∧ (isStreaming s = false → connectionStatus s = Completed →
     typewriterData (sync s v) = data s ∧ isTypewriterActive (sync s v) = false)
  ∧ (isStreaming s = false →
     connectionStatus s = Stopped ∨ connectionStatus s = Error →
     sync s v = v).
Proof.
  destruct v as [d a hd]. unfold sync. simpl. split_and!.
  - intros ->. by destruct hd, (has_keys (data s)).
  - intros -> ->. simpl. by destruct (has_keys (data s)).
  - intros -> [->| ->]; done.
Qed.

(** "Clear Results" empties the view and resets the hook to idle without
    calling an observer; the effect that runs on the reset state leaves the
    view empty, and "Clear Results" is no longer offered. *)
Theorem clearResults_clears (v : View) (h : Hook) :
  let '(v', (h', effects)) := clearResults v h in
  v' = empty_view
  ∧ state h' = {| data := ∅; isStreaming := false; error := None;
                  connectionStatus := Idle |}
  ∧ effects = []
  ∧ sync (state h') v' = empty_view
  ∧ can_clear (state h') (sync (state h') v') = false.
Proof. by split_and!. Qed.

End Generators.

Lemma sync_follows_the_hook_witness :
  let s := {| data := {[ "a" := JNumber "1" ]}; isStreaming := false;
              error := None; connectionStatus := Stopped |} in
  let v := Generator.mkView {[ "a" := JNumber "1" ]} true true in
  Generator.isTypewriterActive (Generator.sync s v) = true.
Proof.
  intros s v.
  destruct (sync_follows_the_hook s v) as (_ & _ & Hstop).
  by rewrite (Hstop eq_refl (or_introl eq_refl)).
Defined.

(** * The typewriter *)

Section TypewriterBasics.
Import Typewriter.

Lemma split_at_nonempty (sep : ascii) (s : string) : split_at sep s ≠ [].
Proof.
  destruct s as [|c s]; [done|]. simpl.
  case_bool_decide; [done|]. by destruct (split_at sep s).
Qed.

Lemma words_of_length (s : string) : 0 < List.length (words_of s).
Proof.
  unfold words_of. pose proof (split_at_nonempty " " s).
  destruct (split_at " " s); [done|simpl; lia].
Qed.

Lemma join_cons_cons (sep w w' : string) (l : list string) :
  join sep (w :: w' :: l) = w +:+ sep +:+ join sep (w' :: l).
Proof. reflexivity. Qed.

Lemma join_String (sep : string) (c : ascii) (w : string) (l : list string) :
  join sep (String c w :: l) = String c (join sep (w :: l)).
Proof. by destruct l. Qed.

(** [s.split(sep).join(sep)] is [s]. *)
Lemma join_split_at (sep : ascii) (s : string) :
  join (String sep "") (split_at sep s) = s.
Proof.
  induction s as [|c s IH]; [done|]. simpl.
  pose proof (split_at_nonempty sep s) as Hne.
  case_bool_decide as Hc.
  - subst c. destruct (split_at sep s) as [|w ws] eqn:Hs; [done|].
    rewrite join_cons_cons, IH. reflexivity.
  - destruct (split_at sep s) as [|w ws] eqn:Hs; [done|].
    by rewrite join_String, IH.
Qed.

Lemma startsWith_refl (s : string) : startsWith s s = true.
Proof.
  induction s as [|c s IH]; [done|]. simpl.
  by rewrite bool_decide_eq_true_2, IH.
Qed.

End TypewriterBasics.

Section TypewriterEffect.
Import Typewriter.

Lemma effect_fields (p : Props) (i0 : nat) (c : Component) :
  let c' := (effect p i0 c).1.1 in
  props c' = props c
  ∧ currentWordIndex c' = index_after p i0 c
  ∧ originalTextRef c' = reference_after p c
  ∧ effect_deps c' = effect_deps c.
Proof.
  unfold effect, index_after, reference_after, starts_over, words_of.
  case_bool_decide; [done|].
  destruct (isActive p); simpl; [|done].
  destruct (bool_decide (originalTextRef c = "")
            || negb (startsWith (text p) (originalTextRef c))); simpl;
    destruct (List.length (split_at " " (text p)) <? i0); simpl;
    destruct (i0 <? List.length (split_at " " (text p))); simpl;
    try done; by destruct (onComplete p).
Qed.

Lemma cleanup_fields (c : Component) :
  props (cleanup c) = props c
  ∧ currentWordIndex (cleanup c) = currentWordIndex c
  ∧ originalTextRef (cleanup c) = originalTextRef c
  ∧ effect_deps (cleanup c) = effect_deps c
  ∧ displayedText (cleanup c) = displayedText c.
Proof. unfold cleanup. by destruct (timeoutRef c). Qed.

(** A second run of the effect leaves the word index where the first run
    put it. *)
Lemma index_after_stable (p : Props) (c c' : Component) :
  currentWordIndex c' = index_after p (currentWordIndex c) c →
  originalTextRef c' = reference_after p c →
  index_after p (currentWordIndex c') c' = currentWordIndex c'.
Proof.
  unfold index_after, reference_after, starts_over.
  intros Hi Hr. case_bool_decide as Ht; [done|].
  destruct (isActive p); simpl in *; [|done].
  destruct (bool_decide (originalTextRef c = "")
            || negb (startsWith (text p) (originalTextRef c))) eqn:Hso;
    simpl in *.
  - rewrite Hr, Hi, startsWith_refl, bool_decide_eq_false_2 by done. done.
  - rewrite Hr, Hso. simpl.
    destruct (List.length (words_of (text p)) <? currentWordIndex c) eqn:Hlt.
    + by rewrite Hi.
    + rewrite Hi, Hlt. done.
Qed.

Lemma render_settled (n : nat) (c : Component) :
  settled_component c → render n c = (c, []).
Proof.
  intros Hs. destruct n as [|n]; [done|]. simpl.
  by rewrite bool_decide_eq_true_2.
Qed.

Lemma render_S (n : nat) (c : Component) :
  ¬ settled_component c →
  render (S n) c =
    let '(c2, e2) := render n (after_effect c) in
    (c2, (effect (props c) (currentWordIndex c) (cleaned c)).2 ++ e2).
Proof.
  intros Hs. simpl. rewrite bool_decide_eq_false_2 by done.
  unfold after_effect, cleaned.
  by destruct (effect (props c) (currentWordIndex c) _) as [[c1 ret] e1].
Qed.

Lemma after_effect_fields (c : Component) :
  let c0 := if effect_cleanup c then cleanup c else c in
  props (after_effect c) = props c
  ∧ currentWordIndex (after_effect c)
    = index_after (props c) (currentWordIndex c) c0
  ∧ originalTextRef (after_effect c) = reference_after (props c) c0
  ∧ effect_deps (after_effect c)
    = Some (deps_of (props c) (currentWordIndex c))
  ∧ currentWordIndex c0 = currentWordIndex c
  ∧ originalTextRef c0 = originalTextRef c.
Proof.
  intros c0.
  destruct (effect_fields (props c) (currentWordIndex c) c0)
    as (Hp & Hi & Hr & _).
  assert (Hc0 : props c0 = props c ∧ currentWordIndex c0 = currentWordIndex c
                ∧ originalTextRef c0 = originalTextRef c).
  { subst c0. destruct (effect_cleanup c); [|done].
    by destruct (cleanup_fields c) as (? & ? & ? & _). }
  destruct Hc0 as (Hp0 & Hi0 & Hr0).
  unfold after_effect. fold c0. simpl. split_and!; try done.
  by rewrite Hp.
Qed.

(** After two runs of the effect no third is due. *)
Lemma after_effect_twice_settled (c : Component) :
  settled_component (after_effect (after_effect c)).
Proof.
  destruct (after_effect_fields c) as (Hp & Hi & Hr & _ & Hi0 & Hr0).
  destruct (after_effect_fields (after_effect c))
    as (Hp' & Hi' & Hr' & Hd' & Hi0' & Hr0').
  unfold settled_component. rewrite Hd', Hp'.
  set (c0 := if effect_cleanup c then cleanup c else c) in *.
  set (c1 := if effect_cleanup (after_effect c) then cleanup (after_effect c)
             else after_effect c) in *.
  assert (Hstable : currentWordIndex (after_effect (after_effect c))
                    = currentWordIndex (after_effect c)); [|by rewrite Hstable].
  rewrite Hi', <- Hi0', Hp.
  apply (index_after_stable (props c) c0 c1).
  - by rewrite Hi0', Hi, Hi0.
  - by rewrite Hr0', Hr.
Qed.

Lemma render_three_settled (c : Component) :
  settled_component (render 3 c).1.
Proof.
  destruct (decide (settled_component c)) as [Hs|Hs].
  { by rewrite render_settled. }
  rewrite (render_S _ c) by done.
  destruct (decide (settled_component (after_effect c))) as [Hs1|Hs1].
  { by rewrite render_settled. }
  rewrite (render_S _ (after_effect c)) by done.
  pose proof (after_effect_twice_settled c) as Hs2.
  by rewrite render_settled.
Qed.

(** The effect never makes the component render in a loop: whatever the
    props and the state, after at most two runs of the effect no further
    run is due, and more renders change nothing. *)
Theorem render_settles (c : Component) (n : nat) :
  settled_component (render renders c).1
  ∧ render (renders + n) c = render renders c.
Proof.
  split; [apply render_three_settled|]. unfold renders.
  destruct (decide (settled_component c)) as [Hs|Hs].
  { by rewrite !render_settled. }
  change (3 + n) with (S (S (S n))). rewrite !(render_S _ c) by done.
  destruct (decide (settled_component (after_effect c))) as [Hs1|Hs1].
  { by rewrite !render_settled. }
  rewrite !(render_S _ (after_effect c)) by done.
  pose proof (after_effect_twice_settled c) as Hs2.
  by rewrite !render_settled.
Qed.

End TypewriterEffect.

Section TypewriterTimers.
Import Typewriter.

Lemma cleaned_timers (c : Component) :
  one_timer c → timers (if effect_cleanup c then cleanup c else c) = [].
Proof.
  intros [Ht|(t & Ht & Hr & Hc)].
  - destruct (effect_cleanup c); [|done]. unfold cleanup.
    destruct (timeoutRef c); [|done]. simpl. by rewrite Ht.
  - rewrite Hc. unfold cleanup. rewrite Hr. simpl. rewrite Ht.
    rewrite filter_cons_False; [done|]. intros Hne. by apply Hne.
Qed.

Lemma effect_one_timer (p : Props) (i0 : nat) (c : Component) (d : Deps) :
  timers c = [] →
  one_timer (set_effect d (effect p i0 c).1.2 (effect p i0 c).1.1).
Proof.
  intros Ht. unfold effect, one_timer.
  case_bool_decide; [by left|].
  destruct (isActive p); simpl; [|by left].
  destruct (bool_decide (originalTextRef c = "")
            || negb (startsWith (text p) (originalTextRef c))); simpl;
    destruct (List.length (split_at " " (text p)) <? i0); simpl;
    destruct (i0 <? List.length (split_at " " (text p))); simpl;
    try (right; eexists; rewrite Ht; by split_and!);
    destruct (onComplete p); by left.
Qed.

Lemma after_effect_one_timer (c : Component) :
  one_timer c → one_timer (after_effect c).
Proof.
  intros Ht. unfold after_effect. apply effect_one_timer.
  by apply cleaned_timers.
Qed.

Lemma render_one_timer (n : nat) (c : Component) :
  one_timer c → one_timer (render n c).1.
Proof.
  revert c. induction n as [|n IH]; intros c Ht; [done|].
  destruct (decide (settled_component c)) as [Hs|Hs].
  - by rewrite render_settled.
  - rewrite render_S by done.
    specialize (IH _ (after_effect_one_timer c Ht)).
    by destruct (render n (after_effect c)) as [c2 e2].
Qed.

Lemma find_timer (id : nat) (c : Component) (i : nat) (t : Timer) :
  one_timer c →
  list_find (λ t, timer_id t = id) (timers c) = Some (i, t) →
  timers c = [t] ∧ timer_id t = id.
Proof.
  intros [Ht|(t0 & Ht & _)] Hf; rewrite Ht in Hf; [done|].
  apply list_find_Some in Hf as (Hi & Hid & _).
  destruct i as [|i]; [|done]. by injection Hi as ->.
Qed.

Lemma step_one_timer (c : Component) (inp : Input) :
  one_timer c → one_timer (step c inp).1.
Proof.
  intros Ht. destruct inp as [p|id]; simpl.
  - unfold update. apply render_one_timer.
    destruct Ht as [Ht|(t & Ht & Hr & Hc)]; [by left|].
    right. by exists t.
  - unfold timeout.
    destruct (list_find _ (timers c)) as [[i t]|] eqn:Hf; [|done].
    apply render_one_timer. left.
    destruct (find_timer id c i t Ht Hf) as [Hts Hid]. simpl. rewrite Hts.
    rewrite filter_cons_False; [done|]. intros Hne. by apply Hne.
Qed.

(** Whatever props the parent passes and whenever timeouts expire, the
    component never has two timeouts set at once: the effect clears the
    timeout of its last run before it sets another. *)
Theorem never_two_timeouts (p : Props) (inputs : list Input) :
  List.length (timers (run (mount p).1 inputs).1) ≤ 1.
Proof.
  assert (Hrun : ∀ c, one_timer c → one_timer (run c inputs).1).
  { induction inputs as [|inp inputs IH]; intros c Ht; [done|].
    simpl. pose proof (step_one_timer c inp Ht) as Ht1.
    destruct (step c inp) as [c1 e1]. specialize (IH c1 Ht1).
    by destruct (run c1 inputs) as [c2 e2]. }
  assert (Hm : one_timer (mount p).1).
  { apply render_one_timer. by left. }
  destruct (Hrun _ Hm) as [->|(t & -> & _)]; simpl; lia.
Qed.

End TypewriterTimers.

Section TypewriterTyping.
Import Typewriter.

Lemma cleaned_fields (c : Component) :
  props (cleaned c) = props c
  ∧ currentWordIndex (cleaned c) = currentWordIndex c
  ∧ originalTextRef (cleaned c) = originalTextRef c
  ∧ displayedText (cleaned c) = displayedText c
  ∧ next_id (cleaned c) = next_id c.
Proof.
  unfold cleaned. destruct (effect_cleanup c); [|done].
  unfold cleanup. by destruct (timeoutRef c).
Qed.

Lemma effect_continue (p : Props) (i : nat) (c : Component) :
  typing p → starts_over p c = false →
  i ≤ List.length (words_of (text p)) →
  effect p i c =
    if i <? List.length (words_of (text p))
    then (setTimeout (words_of (text p)) i c, true, [])
    else (c, true, completion p).
Proof.
  intros [Ht Ha] Hso Hi. unfold effect, completion. fold (words_of (text p)).
  rewrite bool_decide_eq_false_2, Ha by done. simpl.
  unfold starts_over in Hso. rewrite Hso.
  assert ((List.length (words_of (text p)) <? i) = false) as ->
    by (apply Nat.ltb_ge; lia).
  destruct (i <? List.length (words_of (text p))); [done|].
  by destruct (onComplete p).
Qed.

Lemma effect_restart (p : Props) (i : nat) (c : Component) :
  typing p → starts_over p c = true →
  effect p i c =
    let c2 := if List.length (words_of (text p)) <? i
              then setDisplayedText "" (setCurrentWordIndex 0 (started_over p c))
              else started_over p c in
    if i <? List.length (words_of (text p))
    then (setTimeout (words_of (text p)) i c2, true, [])
    else (c2, true, completion p).
Proof.
  intros [Ht Ha] Hso. unfold effect, completion. fold (words_of (text p)).
  rewrite bool_decide_eq_false_2, Ha by done. simpl.
  unfold starts_over in Hso. rewrite Hso. fold (started_over p c).
  destruct (List.length (words_of (text p)) <? i);
    destruct (i <? List.length (words_of (text p))); try done;
    by destruct (onComplete p).
Qed.

(** A render in which the effect goes on with the text. *)
Lemma render_continue (n : nat) (c : Component) (p : Props) (k : nat) :
  props c = p → typing p → currentWordIndex c = k →
  k ≤ List.length (words_of (text p)) →
  starts_over p c = false → ¬ settled_component c → one_timer c →
  render (S (S n)) c
  = (after_effect c,
     if k <? List.length (words_of (text p)) then [] else completion p)
  ∧ awaiting p k (after_effect c)
  ∧ displayedText (after_effect c) = displayedText c
  ∧ originalTextRef (after_effect c) = originalTextRef c.
Proof.
  intros Hp Hty Hk Hle Hso Hs Hone.
  destruct (cleaned_fields c) as (Hp0 & Hi0 & Hr0 & Hd0 & _).
  pose proof (cleaned_timers c Hone) as Ht0. fold (cleaned c) in Ht0.
  assert (Hso0 : starts_over p (cleaned c) = false).
  { unfold starts_over in *. by rewrite Hr0. }
  assert (Ha : after_effect c
    = set_effect (deps_of p k) true
        (if k <? List.length (words_of (text p))
         then setTimeout (words_of (text p)) k (cleaned c) else cleaned c)).
  { unfold after_effect. fold (cleaned c). rewrite Hp, Hk.
    rewrite effect_continue by done.
    by destruct (k <? List.length (words_of (text p))). }
  assert (Haw : awaiting p k (after_effect c)).
  { rewrite Ha. unfold awaiting, settled_component, one_timer, starts_over.
    destruct (k <? List.length (words_of (text p))) eqn:Hlt; simpl;
      rewrite ?Hp0, ?Hi0, ?Hr0, ?Ht0, ?Hp, ?Hk; unfold starts_over in Hso;
      split_and!; try done.
    - right. eexists. by split_and!.
    - by eexists.
    - by left. }
  split_and!; [|done| |].
  - pose proof Haw as (_ & _ & _ & Hset & _).
    rewrite render_S by done. rewrite Hp, Hk.
    rewrite render_settled by done.
    rewrite effect_continue by done.
    destruct (k <? List.length (words_of (text p))); simpl;
      by rewrite ?app_nil_r.
  - rewrite Ha. by destruct (k <? List.length (words_of (text p))).
  - rewrite Ha. by destruct (k <? List.length (words_of (text p))).
Qed.

(** A render in which the effect starts the text over. *)
Lemma render_restart (n : nat) (c : Component) (p : Props) :
  props c = p → typing p → starts_over p c = true →
  ¬ settled_component c → one_timer c →
  let out := render (S (S (S n))) c in
  out.2 = (if currentWordIndex c <? List.length (words_of (text p))
           then [] else completion p)
  ∧ awaiting p 0 out.1
  ∧ displayedText out.1 = ""
  ∧ originalTextRef out.1 = text p.
Proof.
  intros Hp Hty Hso Hs Hone out.
  destruct (cleaned_fields c) as (Hp0 & Hi0 & Hr0 & Hd0 & _).
  pose proof (cleaned_timers c Hone) as Ht0. fold (cleaned c) in Ht0.
  assert (Hso0 : starts_over p (cleaned c) = true).
  { unfold starts_over in *. by rewrite Hr0. }
  pose proof (words_of_length (text p)) as Hn.
  set (k := currentWordIndex c) in *.
  set (e1 := if k <? List.length (words_of (text p)) then [] else completion p).
  assert (He1 : (effect p k (cleaned c)).2 = e1).
  { rewrite effect_restart by done. subst e1. simpl.
    by destruct (k <? List.length (words_of (text p))). }
  assert (Ha : props (after_effect c) = p
               ∧ currentWordIndex (after_effect c) = 0
               ∧ originalTextRef (after_effect c) = text p
               ∧ displayedText (after_effect c) = ""
               ∧ effect_deps (after_effect c) = Some (deps_of p k)).
  { unfold after_effect. fold (cleaned c). rewrite Hp. fold k.
    rewrite effect_restart by done. simpl.
    destruct (List.length (words_of (text p)) <? k);
      destruct (k <? List.length (words_of (text p))); simpl;
      by rewrite ?Hp0, ?Hp. }
  destruct Ha as (Hp1 & Hi1 & Hr1 & Hd1 & Hdeps1).
  assert (Hso1 : starts_over p (after_effect c) = false).
  { unfold starts_over. rewrite Hr1, startsWith_refl.
    destruct Hty as [Ht _]. by rewrite bool_decide_eq_false_2. }
  pose proof (after_effect_one_timer c Hone) as Hone1.
  subst out. rewrite render_S by done. rewrite Hp. fold k.
  rewrite He1.
  destruct (decide (k = 0)) as [Hk0|Hk0].
  - assert (Hs1 : settled_component (after_effect c)).
    { unfold settled_component. by rewrite Hdeps1, Hp1, Hi1, Hk0. }
    rewrite render_settled by done. simpl. rewrite app_nil_r.
    split_and!; [done| |done|done].
    unfold awaiting. split_and!; try done.
    assert ((0 <? List.length (words_of (text p))) = true) as ->
      by (apply Nat.ltb_lt; lia).
    unfold after_effect. fold (cleaned c). rewrite Hp. fold k.
    rewrite effect_restart by done. rewrite Hk0. simpl.
    assert ((0 <? List.length (words_of (text p))) = true) as ->
      by (apply Nat.ltb_lt; lia).
    simpl. rewrite Ht0. by eexists.
  - assert (Hs1 : ¬ settled_component (after_effect c)).
    { unfold settled_component. rewrite Hdeps1, Hp1, Hi1.
      intros [= Hk]. done. }
    destruct (render_continue n (after_effect c) p 0 Hp1 Hty Hi1
                ltac:(lia) Hso1 Hs1 Hone1) as (Hr & Haw & Hd & Href).
    rewrite Hr. cbn [fst snd].
    assert ((0 <? List.length (words_of (text p))) = true) as ->
      by (apply Nat.ltb_lt; lia).
    rewrite app_nil_r. split_and!; [done|done| |].
    + by rewrite Hd.
    + by rewrite Href.
Qed.

Lemma find_own_timer (t : Timer) :
  list_find (λ x, timer_id x = timer_id t) [t] = Some (0, t).
Proof. simpl. by rewrite decide_True. Qed.

(** The timeout of a component that stands before word [k] expires. *)
Lemma tick_awaiting (p : Props) (k : nat) (c : Component) :
  typing p → awaiting p k c → k < List.length (words_of (text p)) →
  let out := tick c in
  awaiting p (S k) out.1
  ∧ displayedText out.1 = join " " (take (S k) (words_of (text p)))
  ∧ originalTextRef out.1 = originalTextRef c
  ∧ out.2 = (if S k <? List.length (words_of (text p))
             then [] else completion p).
Proof.
  intros Hty (Hp & Hk & Hso & Hs & Hone & Ht) Hlt out.
  assert ((k <? List.length (words_of (text p))) = true) as Hltb
    by (apply Nat.ltb_lt; lia).
  rewrite Hltb in Ht. destruct Ht as [id Ht].
  set (c1 := fire (word_timer p id k) (clearTimeout id c)).
  assert (Hout : out = render renders c1).
  { subst out. unfold tick. rewrite Ht. unfold timeout. rewrite Ht.
    change id with (timer_id (word_timer p id k)) at 1.
    by rewrite find_own_timer. }
  assert (Ht1 : timers c1 = []).
  { subst c1. simpl. rewrite Ht.
    rewrite filter_cons_False; [done|]. intros Hne. by apply Hne. }
  assert (Hs1 : ¬ settled_component c1).
  { unfold settled_component in *. subst c1. simpl. rewrite Hs, Hk.
    intros [= Hx]. lia. }
  assert (Hso1 : starts_over p c1 = false) by done.
  destruct (render_continue 1 c1 p (S k) Hp Hty (f_equal S Hk)
              ltac:(lia) Hso1 Hs1 (or_introl Ht1)) as (Hr & Haw & Hd & Href).
  rewrite Hout. unfold renders. rewrite Hr. by split_and!.
Qed.

Lemma ticks_awaiting (p : Props) (j k : nat) (c : Component) :
  typing p → awaiting p k c → k + j ≤ List.length (words_of (text p)) →
  let out := ticks j c in
  awaiting p (k + j) out.1
  ∧ (0 < j → displayedText out.1 = join " " (take (k + j) (words_of (text p))))
  ∧ (j = 0 → displayedText out.1 = displayedText c)
  ∧ originalTextRef out.1 = originalTextRef c
  ∧ out.2 = (if (0 <? j) && (List.length (words_of (text p)) <=? k + j)
             then completion p else []).
Proof.
  intros Hty. revert k c. induction j as [|j IH]; intros k c Haw Hle out.
  - subst out. simpl. rewrite Nat.add_0_r. split_and!; try done. lia.
  - subst out. simpl.
    destruct (tick_awaiting p k c Hty Haw ltac:(lia)) as (Haw1 & Hd1 & Hr1 & He1).
    destruct (tick c) as [c1 e1]. simpl in Haw1, Hd1, Hr1, He1.
    destruct (IH (S k) c1 Haw1 ltac:(lia)) as (Haw2 & Hd2 & Hd0 & Hr2 & He2).
    destruct (ticks j c1) as [c2 e2]. simpl in *.
    replace (k + S j) with (S k + j) by lia.
    split_and!; [done| |lia|congruence|].
    + intros _. destruct j as [|j]; [|apply Hd2; lia].
      rewrite Hd0 by done. by rewrite Nat.add_0_r.
    + rewrite He1, He2.
      destruct j as [|j]; simpl.
      * rewrite Nat.add_0_r, app_nil_r.
        destruct (S k <? List.length (words_of (text p))) eqn:Hlt;
          destruct (List.length (words_of (text p)) <=? S k) eqn:Hle'; try done.
        -- apply Nat.ltb_lt in Hlt. apply Nat.leb_le in Hle'. lia.
        -- apply Nat.ltb_ge in Hlt. apply Nat.leb_gt in Hle'. lia.
      * assert ((S k <? List.length (words_of (text p))) = true) as ->
          by (apply Nat.ltb_lt; lia).
        done.
Qed.

Lemma mount_awaiting (p : Props) :
  typing p →
  awaiting p 0 (mount p).1
  ∧ displayedText (mount p).1 = ""
  ∧ originalTextRef (mount p).1 = text p
  ∧ (mount p).2 = [].
Proof.
  intros Hty. unfold mount, renders.
  destruct (render_restart 0 (fresh p) p eq_refl Hty eq_refl)
    as (He & Haw & Hd & Hr); [done|by left|].
  split_and!; try done. rewrite He. simpl.
  pose proof (words_of_length (text p)).
  by destruct (List.length (words_of (text p))); [lia|].
Qed.

(** The text is typed out word by word. After the mount and [k] timeouts
    the component shows the first [k] words, joined by spaces; after as
    many timeouts as the text has words it shows the whole text, has no
    timeout set, and [onComplete], if given, has been called: once, and
    not before the last word. *)
Theorem typing_reaches_the_text (p : Props) (k : nat) :
  typing p → k ≤ List.length (words_of (text p)) →
  let out := ticks k (mount p).1 in
  displayedText out.1 = join " " (take k (words_of (text p)))
  ∧ currentWordIndex out.1 = k
  ∧ (mount p).2 ++ out.2
    = (if List.length (words_of (text p)) <=? k then completion p else [])
  ∧ (k = List.length (words_of (text p)) →
     displayedText out.1 = text p ∧ timers out.1 = []
     ∧ tick out.1 = (out.1, [])).
Proof.
  intros Hty Hk out.
  destruct (mount_awaiting p Hty) as (Haw0 & Hd0 & Hr0 & He0).
  destruct (ticks_awaiting p k 0 (mount p).1 Hty Haw0 Hk)
    as (Haw & Hd & Hdz & Hr & He).
  fold out in Haw, Hd, Hdz, Hr, He. simpl in Haw, Hd, He.
  pose proof (words_of_length (text p)) as Hn.
  assert (Hdisp : displayedText out.1 = join " " (take k (words_of (text p)))).
  { destruct k as [|k]; [by rewrite Hdz, Hd0|]. apply Hd. lia. }
  assert (Htimers : k = List.length (words_of (text p)) → timers out.1 = []).
  { intros ->. destruct Haw as (_ & _ & _ & _ & _ & Ht).
    by rewrite Nat.ltb_irrefl in Ht. }
  split_and!; [done|apply Haw| |].
  - rewrite He0, He. simpl. destruct k as [|k]; simpl; [|done].
    by destruct (List.length (words_of (text p))); [lia|].
  - intros Hkn. split_and!; [|by apply Htimers|].
    + rewrite Hdisp, Hkn, firstn_all. apply join_split_at.
    + unfold tick. by rewrite Htimers.
Qed.

End TypewriterTyping.

Lemma typing_reaches_the_text_witness :
  let out := Typewriter.ticks 3 (Typewriter.mount story_with_callback).1 in
  Typewriter.displayedText out.1 = "As a user"
  ∧ (Typewriter.mount story_with_callback).2 ++ out.2 = [Typewriter.completed 7].
Proof.
  intros out.
  destruct (typing_reaches_the_text story_with_callback 3)
    as (_ & _ & He & Hall).
  - by split.
  - vm_compute. lia.
  - split; [by apply Hall|]. exact He.
Defined.

Section TypewriterUpdates.
Import Typewriter.

Lemma typed_awaiting (p : Props) (k : nat) :
  typing p → k ≤ word_count (text p) →
  awaiting p k (typed p k)
  ∧ originalTextRef (typed p k) = text p
  ∧ displayedText (typed p k) = join " " (take k (words_of (text p))).
Proof.
  intros Hty Hk.
  destruct (mount_awaiting p Hty) as (Haw0 & Hd0 & Hr0 & _).
  destruct (ticks_awaiting p k 0 (mount p).1 Hty Haw0 Hk)
    as (Haw & Hd & Hdz & Hr & _).
  unfold typed. simpl in *. split_and!; [done|congruence|].
  destruct k as [|k]; [by rewrite Hdz, Hd0|]. apply Hd. lia.
Qed.

Lemma startsWith_nonempty (s r : string) :
  r ≠ "" → startsWith s r = true → s ≠ "".
Proof. intros Hr Hs ->. by destruct r. Qed.

(** The props change while the component types: what [update] starts
    from. *)
Lemma typed_with_text (p : Props) (k : nat) (t' : string) :
  typing p → k ≤ word_count (text p) → t' ≠ text p →
  let c := set_props (with_text p t') (typed p k) in
  props c = with_text p t'
  ∧ currentWordIndex c = k
  ∧ originalTextRef c = text p
  ∧ displayedText c = join " " (take k (words_of (text p)))
  ∧ ¬ settled_component c
  ∧ one_timer c.
Proof.
  intros Hty Hk Hne c.
  destruct (typed_awaiting p k Hty Hk) as ((Hp & Hi & _ & Hs & Hone & _) & Hr & Hd).
  subst c. split_and!; try done.
  unfold settled_component in *. simpl. rewrite Hs, Hp.
  unfold deps_of. simpl. intros [= Hx]. by apply Hne.
Qed.

(** The text grows, as a streamed text does: the new text begins with the
    text the component was mounted with. The component keeps its place: it
    shows what it showed, and goes on with the next word of the new text.
    After the remaining words it shows the whole new text and calls
    [onComplete]. *)
Theorem longer_text_keeps_place (p : Props) (k : nat) (t' : string) :
  typing p → k ≤ word_count (text p) →
  t' ≠ text p → startsWith t' (text p) = true → k < word_count t' →
  let p' := with_text p t' in
  let u := update p' (typed p k) in
  displayedText u.1 = displayedText (typed p k)
  ∧ currentWordIndex u.1 = k
  ∧ u.2 = []
  ∧ let out := ticks (word_count t' - k) u.1 in
    displayedText out.1 = t' ∧ out.2 = completion p'.
Proof.
  intros Hty Hk Hne Hsw Hlt p' u.
  destruct (typed_with_text p k t' Hty Hk Hne) as (Hp & Hi & Hr & Hd & Hs & Hone).
  assert (Hty' : typing p').
  { destruct Hty as [Ht Ha]. split; [|done]. simpl.
    by apply (startsWith_nonempty t' (text p)). }
  assert (Hso : starts_over p' (set_props p' (typed p k)) = false).
  { subst p'. unfold starts_over. rewrite Hr. simpl. rewrite Hsw.
    destruct Hty as [Ht _]. by rewrite bool_decide_eq_false_2. }
  destruct (render_continue 1 (set_props p' (typed p k)) p' k Hp Hty' Hi
              ltac:(unfold word_count in Hlt; simpl; lia) Hso Hs Hone)
    as (Hren & Haw & Hdisp & _).
  assert (Hu : u = (after_effect (set_props p' (typed p k)), [])).
  { subst u. unfold update, renders. rewrite Hren. simpl.
    assert ((k <? List.length (words_of t')) = true) as ->
      by (apply Nat.ltb_lt; unfold word_count in Hlt; lia).
    done. }
  rewrite Hu. simpl. split; [done|]. split; [apply Haw|]. split; [done|].
  destruct (ticks_awaiting p' (word_count t' - k) k _ Hty' Haw)
    as (_ & Hd' & _ & _ & He').
  { subst p'. unfold word_count in *. simpl. lia. }
  subst p'. simpl in Hd', He'. split.
  - rewrite Hd' by lia.
    replace (k + (word_count t' - k)) with (List.length (words_of t'))
      by (unfold word_count in *; lia).
    rewrite firstn_all. apply join_split_at.
  - rewrite He'.
    assert ((0 <? word_count t' - k) = true) as ->
      by (apply Nat.ltb_lt; lia).
    assert ((List.length (words_of t') <=? k + (word_count t' - k)) = true) as ->
      by (apply Nat.leb_le; unfold word_count in *; lia).
    done.
Qed.

(** The text is replaced by one that does not begin with the text the
    component was mounted with: the component starts over. It shows
    nothing, stands before the first word, and after as many timeouts as
    the new text has words it shows the new text. [onComplete] is called at
    once, before any word of the new text is typed, when the old position
    is not inside the new text; and again at the end. *)
Theorem new_text_starts_over (p : Props) (k : nat) (t' : string) :
  typing p → k ≤ word_count (text p) →
  t' ≠ "" → startsWith t' (text p) = false →
  let p' := with_text p t' in
  let u := update p' (typed p k) in
  displayedText u.1 = ""
  ∧ currentWordIndex u.1 = 0
  ∧ u.2 = (if k <? word_count t' then [] else completion p')
  ∧ let out := ticks (word_count t') u.1 in
    displayedText out.1 = t' ∧ out.2 = completion p'.
Proof.
  intros Hty Hk Ht' Hsw p' u.
  assert (Hne : t' ≠ text p).
  { intros ->. by rewrite startsWith_refl in Hsw. }
  destruct (typed_with_text p k t' Hty Hk Hne) as (Hp & Hi & Hr & Hd & Hs & Hone).
  assert (Hty' : typing p').
  { destruct Hty as [_ Ha]. by split. }
  assert (Hso : starts_over p' (set_props p' (typed p k)) = true).
  { subst p'. unfold starts_over. rewrite Hr. simpl. rewrite Hsw. by rewrite orb_true_r. }
  destruct (render_restart 0 (set_props p' (typed p k)) p' Hp Hty' Hso Hs Hone)
    as (He & Haw & Hdisp & _).
  fold (update p' (typed p k)) in He, Haw, Hdisp. fold u in He, Haw, Hdisp.
  assert (Hi' : currentWordIndex (set_props p' (typed p k)) = k) by exact Hi.
  rewrite Hi' in He. split; [done|]. split; [apply Haw|]. split; [done|].
  pose proof (words_of_length t') as Hn.
  destruct (ticks_awaiting p' (word_count t') 0 u.1 Hty' Haw)
    as (_ & Hd' & _ & _ & He').
  { subst p'. unfold word_count. simpl. lia. }
  subst p'. simpl in Hd', He'. split.
  - rewrite Hd' by (unfold word_count in *; lia).
    unfold word_count. rewrite firstn_all. apply join_split_at.
  - rewrite He'.
    assert ((0 <? word_count t') = true) as ->
      by (apply Nat.ltb_lt; unfold word_count in *; lia).
    assert ((List.length (words_of t') <=? word_count t') = true) as ->
      by (apply Nat.leb_le; unfold word_count in *; lia).
    done.
Qed.

(** The text grows inside its last word after the component has typed all
    its words, and no word is added: the component does not type the rest.
    It goes on showing the old text, sets no timeout, and calls
    [onComplete] again. *)
Theorem growth_inside_the_last_word_is_not_shown (p : Props) (t' : string) :
  typing p →
  t' ≠ text p → startsWith t' (text p) = true →
  word_count t' = word_count (text p) →
  let p' := with_text p t' in
  let u := update p' (typed p (word_count (text p))) in
  displayedText u.1 = text p
  ∧ timers u.1 = []
  ∧ u.2 = completion p'
  ∧ tick u.1 = (u.1, []).
Proof.
  intros Hty Hne Hsw Hwc p' u. subst p'.
  destruct (typed_with_text p (word_count (text p)) t' Hty ltac:(done) Hne)
    as (Hp & Hi & Hr & Hd & Hs & Hone).
  assert (Hty' : typing (with_text p t')).
  { destruct Hty as [Ht Ha]. split; [|done]. simpl.
    by apply (startsWith_nonempty t' (text p)). }
  assert (Hso : starts_over (with_text p t')
                  (set_props (with_text p t') (typed p (word_count (text p))))
                = false).
  { unfold starts_over. rewrite Hr. simpl. rewrite Hsw.
    destruct Hty as [Ht _]. by rewrite bool_decide_eq_false_2. }
  destruct (render_continue 1 _ (with_text p t') (word_count (text p)) Hp Hty' Hi
              ltac:(simpl; unfold word_count in *; lia) Hso Hs Hone)
    as (Hren & Haw & Hdisp & _).
  assert (Hlt : (word_count (text p)
                 <? List.length (words_of (text (with_text p t')))) = false).
  { apply Nat.ltb_ge. simpl. unfold word_count in *. lia. }
  rewrite Hlt in Hren.
  assert (Hu : u = (after_effect (set_props (with_text p t')
                                    (typed p (word_count (text p)))),
                    completion (with_text p t'))).
  { subst u. unfold update, renders. exact Hren. }
  assert (Ht : timers u.1 = []).
  { rewrite Hu. cbn [fst].
    destruct Haw as (_ & _ & _ & _ & _ & Ht). by rewrite Hlt in Ht. }
  split_and!; [| done | by rewrite Hu |].
  - rewrite Hu. cbn [fst]. rewrite Hdisp, Hd. unfold word_count.
    rewrite firstn_all. apply join_split_at.
  - unfold tick. by rewrite Ht.
Qed.

Lemma render_props (n : nat) (c : Component) : props (render n c).1 = props c.
Proof.
  revert c. induction n as [|n IH]; intros c; [done|].
  destruct (decide (settled_component c)) as [Hs|Hs].
  { by rewrite render_settled. }
  rewrite render_S by done. specialize (IH (after_effect c)).
  destruct (render n (after_effect c)) as [c2 e2]. simpl in *.
  rewrite IH. by destruct (after_effect_fields c) as (Hp & _).
Qed.

(** The effect ends at one of its two early returns: what a render leaves. *)
Lemma render_immediate (n : nat) (c : Component) (p : Props)
    (shown ref : string) (idx : nat) :
  props c = p → ¬ settled_component c → one_timer c →
  (∀ i0 c0, effect p i0 c0
            = (set_originalTextRef ref
                 (setCurrentWordIndex idx (setDisplayedText shown c0)),
               false, [])) →
  let out := render (S (S n)) c in
  out.2 = []
  ∧ displayedText out.1 = shown
  ∧ currentWordIndex out.1 = idx
  ∧ originalTextRef out.1 = ref
  ∧ timers out.1 = [].
Proof.
  intros Hp Hs Hone Heff out.
  pose proof (cleaned_timers c Hone) as Ht0. fold (cleaned c) in Ht0.
  set (c1 := after_effect c).
  assert (Hc1 : c1 = set_effect (deps_of p (currentWordIndex c)) false
                       (set_originalTextRef ref
                          (setCurrentWordIndex idx
                             (setDisplayedText shown (cleaned c))))).
  { subst c1. unfold after_effect. fold (cleaned c). by rewrite Hp, !Heff. }
  assert (Hp1 : props c1 = p).
  { rewrite Hc1. simpl. destruct (cleaned_fields c) as (-> & _). done. }
  assert (Hr : render (S (S n)) c
               = let '(c2, e2) := render (S n) c1 in (c2, e2)).
  { rewrite render_S by done. rewrite Hp, Heff. done. }
  subst out. rewrite Hr.
  destruct (decide (settled_component c1)) as [Hs1|Hs1].
  { rewrite render_settled by done. rewrite Hc1. by simpl. }
  rewrite render_S by done. rewrite Hp1, Heff.
  rewrite (render_settled n) by apply after_effect_twice_settled.
  assert (Hcl : cleaned c1 = c1) by (unfold cleaned; by rewrite Hc1).
  unfold after_effect. fold (cleaned c1). rewrite Hcl, Hp1, !Heff.
  rewrite Hc1. by simpl.
Qed.

(** The typewriter is switched off while it types: the component shows the
    whole text at once, clears the timeout it had set, and does not call
    [onComplete]. *)
Theorem switched_off_shows_all (p : Props) (k : nat) :
  typing p → k ≤ word_count (text p) →
  let u := update (switched_off p) (typed p k) in
  displayedText u.1 = text p
  ∧ currentWordIndex u.1 = word_count (text p)
  ∧ timers u.1 = []
  ∧ u.2 = []
  ∧ tick u.1 = (u.1, []).
Proof.
  intros Hty Hk u.
  destruct (typed_awaiting p k Hty Hk) as ((Hp & Hi & _ & Hs & Hone & _) & _).
  destruct Hty as [Ht Ha].
  destruct (render_immediate 1 (set_props (switched_off p) (typed p k))
              (switched_off p) (text p) (text p) (word_count (text p)))
    as (He & Hd & Hx & _ & Htm).
  - done.
  - unfold settled_component in *. simpl. rewrite Hs, Hp.
    unfold deps_of. simpl. rewrite Ha. by intros [=].
  - exact Hone.
  - intros i0 c0. unfold effect. simpl.
    by rewrite bool_decide_eq_false_2.
  - subst u. unfold update, renders. split_and!; try done.
    unfold tick. by rewrite Htm.
Qed.

(** The text is emptied while the component types: it shows nothing, stands
    before the first word, clears the timeout it had set and forgets the
    text it was typing, so that whatever text comes next is typed from its
    first word. *)
Theorem emptied_text_clears (p : Props) (k : nat) (t' : string) :
  typing p → k ≤ word_count (text p) → t' ≠ "" →
  let u := update (with_text p "") (typed p k) in
  displayedText u.1 = ""
  ∧ timers u.1 = []
  ∧ u.2 = []
  ∧ let v := update (with_text p t') u.1 in
    displayedText v.1 = "" ∧ currentWordIndex v.1 = 0
    ∧ displayedText (ticks (word_count t') v.1).1 = t'.
Proof.
  intros Hty Hk Ht' u.
  destruct (typed_awaiting p k Hty Hk) as ((Hp & Hi & _ & Hs & Hone & _) & _).
  set (c := set_props (with_text p "") (typed p k)).
  assert (Hpc : props c = with_text p "") by done.
  assert (Hsc : ¬ settled_component c).
  { unfold settled_component in *. subst c. simpl. rewrite Hs, Hp.
    unfold deps_of. simpl. intros [= Hx]. by destruct Hty. }
  assert (Honec : one_timer c) by exact Hone.
  assert (Hu : u = render 3 c) by reflexivity.
  clearbody u c. subst u.
  destruct (render_immediate 1 c (with_text p "") "" "" 0 Hpc Hsc Honec)
    as (He & Hd & Hx & Hr & Htm).
  { intros i0 c0. unfold effect. simpl. done. }
  pose proof (render_props 3 c) as Hpu. rewrite Hpc in Hpu.
  pose proof (render_three_settled c) as Hsu.
  set (u := (render 3 c).1) in *. clearbody u.
  split; [done|]. split; [done|]. split; [done|].
  intros v.
  assert (Hty' : typing (with_text p t')).
  { destruct Hty as [_ Ha]. by split. }
  set (c' := set_props (with_text p t') u).
  assert (Hv : v = render 3 c') by reflexivity.
  assert (Hpc' : props c' = with_text p t') by done.
  assert (Hso : starts_over (with_text p t') c' = true).
  { unfold starts_over. subst c'. simpl. rewrite Hr. done. }
  assert (Hsc' : ¬ settled_component c').
  { unfold settled_component in *. subst c'. simpl. rewrite Hsu, Hpu.
    unfold deps_of. simpl. intros [= Hy]. by apply Ht'. }
  assert (Hone' : one_timer c') by (by left).
  clearbody v c'. subst v.
  destruct (render_restart 0 c' (with_text p t') Hpc' Hty' Hso Hsc' Hone')
    as (_ & Haw & Hdv & _).
  set (w := (render 3 c').1) in *. clearbody w.
  split; [done|]. split; [apply Haw|].
  destruct (ticks_awaiting (with_text p t') (word_count t') 0 w Hty' Haw)
    as (_ & Hd' & _).
  { unfold word_count. simpl. lia. }
  pose proof (words_of_length t') as Hn.
  change (0 + word_count t') with (word_count t') in Hd'.
  rewrite Hd' by (unfold word_count; lia).
  unfold word_count. change (text (with_text p t')) with t'.
  rewrite firstn_all. apply join_split_at.
Qed.

End TypewriterUpdates.

Lemma longer_text_keeps_place_witness :
  let u := Typewriter.update (with_text story "As a user I want")
             (typed story 2) in
  Typewriter.displayedText u.1 = Typewriter.displayedText (typed story 2)
  ∧ Typewriter.currentWordIndex u.1 = 2.
Proof.
  assert (H1 : typing story) by (by split).
  assert (H2 : 2 ≤ word_count (Typewriter.text story)) by (vm_compute; lia).
  assert (H3 : "As a user I want" ≠ Typewriter.text story)
    by (vm_compute; discriminate).
  assert (H4 : startsWith "As a user I want" (Typewriter.text story) = true)
    by (vm_compute; reflexivity).
  assert (H5 : 2 < word_count "As a user I want") by (vm_compute; lia).
  pose proof (longer_text_keeps_place story 2 "As a user I want"
                H1 H2 H3 H4 H5) as H.
  exact (conj (proj1 H) (proj1 (proj2 H))).
Defined.

Lemma new_text_starts_over_witness :
  let u := Typewriter.update (with_text story_with_callback "Done")
             (typed story_with_callback 3) in
  Typewriter.displayedText u.1 = "" ∧ Typewriter.currentWordIndex u.1 = 0.
Proof.
  assert (H1 : typing story_with_callback) by (by split).
  assert (H2 : 3 ≤ word_count (Typewriter.text story_with_callback))
    by (vm_compute; lia).
  assert (H3 : "Done" ≠ "") by discriminate.
  assert (H4 : startsWith "Done" (Typewriter.text story_with_callback) = false)
    by (vm_compute; reflexivity).
  pose proof (new_text_starts_over story_with_callback 3 "Done"
                H1 H2 H3 H4) as H.
  exact (conj (proj1 H) (proj1 (proj2 H))).
Defined.

Lemma growth_inside_the_last_word_is_not_shown_witness :
  let u := Typewriter.update (with_text story "As a user.")
             (typed story (word_count (Typewriter.text story))) in
  Typewriter.displayedText u.1 = Typewriter.text story
  ∧ Typewriter.timers u.1 = [].
Proof.
  assert (H1 : typing story) by (by split).
  assert (H2 : "As a user." ≠ Typewriter.text story)
    by (vm_compute; discriminate).
  assert (H3 : startsWith "As a user." (Typewriter.text story) = true)
    by (vm_compute; reflexivity).
  assert (H4 : word_count "As a user." = word_count (Typewriter.text story))
    by (vm_compute; reflexivity).
  pose proof (growth_inside_the_last_word_is_not_shown story "As a user."
                H1 H2 H3 H4) as H.
  exact (conj (proj1 H) (proj1 (proj2 H))).
Defined.

Lemma switched_off_shows_all_witness :
  let u := Typewriter.update (switched_off story) (typed story 1) in
  Typewriter.displayedText u.1 = Typewriter.text story
  ∧ Typewriter.currentWordIndex u.1 = word_count (Typewriter.text story).
Proof.
  assert (H1 : typing story) by (by split).
  assert (H2 : 1 ≤ word_count (Typewriter.text story)) by (vm_compute; lia).
  pose proof (switched_off_shows_all story 1 H1 H2) as H.
  exact (conj (proj1 H) (proj1 (proj2 H))).
Defined.

Lemma emptied_text_clears_witness :
  let u := Typewriter.update (with_text story "") (typed story 2) in
  Typewriter.displayedText u.1 = "" ∧ Typewriter.timers u.1 = [].
Proof.
  assert (H1 : typing story) by (by split).
  assert (H2 : 2 ≤ word_count (Typewriter.text story)) by (vm_compute; lia).
  assert (H3 : "Done" ≠ "") by discriminate.
  pose proof (emptied_text_clears story 2 "Done" H1 H2 H3) as H.
  exact (conj (proj1 H) (proj1 (proj2 H))).
Defined.
